(** * nmtpytorch: the translation driver ([nmtpytorch/translator.py])

    A shallow embedding of the [Translator] class: ensemble sanity check,
    split resolution, the per-split decode loop, the post-processing stage
    and the output writer, with the properties of its specification. *)

From Stdlib Require Import ZArith QArith Qround Lia Ascii.
From Stdlib Require Import PrimFloat SpecFloat FloatOps Uint63.
From stdpp Require Import base option list strings pretty gmap.

Local Open Scope Z_scope.

(** ** Python values used by the driver *)

(** Exceptions the driver itself can raise, and [Foreign] for whatever a
    collaborator (checkpoint loader, model, search procedure) raises. *)
Inductive exn :=
  | AssertionError (msg : string)
  | ValueError
  | IndexError
  | KeyError (key : string)
  | TypeError
  | ZeroDivisionError
  | OverflowError
  | OSError (path : string)
  | UnicodeEncodeError
  | Foreign (what : string).

Inductive result (A : Type) :=
  | Ok (a : A)
  | Raise (e : exn).
Arguments Ok {A} a.
Arguments Raise {A} e.

Definition is_ok {A} (r : result A) : bool :=
  match r with Ok _ => true | Raise _ => false end.

(** [str.format] of an [int] with the empty format spec prints it in decimal,
    with a leading minus sign for negative numbers. *)
Definition format_int (n : Z) : string := pretty n.

(** [s.split(sep)] for a one-character separator: the pieces between the
    occurrences of [sep], in order; the empty string gives one empty piece. *)
Fixpoint str_split (sep : ascii) (s : string) : list string :=
  match s with
  | EmptyString => [EmptyString]
  | String c s' =>
      if Ascii.eqb c sep then EmptyString :: str_split sep s'
      else match str_split sep s' with
           | [] => [String c EmptyString]
           | w :: ws => String c w :: ws
           end
  end.

(** [s.split(sep, 1)]: cut at the first occurrence of [sep] only. *)
Fixpoint str_split1 (sep : ascii) (s : string) : list string :=
  match s with
  | EmptyString => [EmptyString]
  | String c s' =>
      if Ascii.eqb c sep then [EmptyString; s']
      else match str_split1 sep s' with
           | w :: ws => String c w :: ws
           | [] => [String c EmptyString]
           end
  end.

(** [sep.join(pieces)]. *)
Fixpoint str_join (sep : string) (pieces : list string) : string :=
  match pieces with
  | [] => EmptyString
  | [w] => w
  | w :: ws => w +:+ sep +:+ str_join sep ws
  end.

(** Tuple unpacking [a, b = xs]. *)
Definition unpack2 {A} (xs : list A) : result (A * A) :=
  match xs with
  | [a; b] => Ok (a, b)
  | _ => Raise ValueError
  end.

(** Truthiness of an attribute that is [None] or a [str]. *)
Definition truthy (o : option string) : bool :=
  match o with
  | Some s => negb (String.eqb s EmptyString)
  | None => false
  end.

(** [pathlib.Path(s)], kept as the string it was built from. *)
Record Path := mkPath { path_str : string }.

(** Text encodings a file can be opened with. *)
Inductive Encoding := UTF8 | Latin1 | ASCII.

(** A text file on disk: the encoding it was opened with and the characters
    written to it. *)
Record File := mkFile { encoding : Encoding; text : string }.

(** Characters are the code points 0..255; ASCII encodes those below 128,
    the other two encodings all of them. *)
Definition encodable (enc : Encoding) (c : ascii) : bool :=
  match enc with
  | ASCII => (N_of_ascii c <? 128)%N
  | _ => true
  end.

Fixpoint str_forallb (p : ascii → bool) (s : string) : bool :=
  match s with
  | EmptyString => true
  | String c s' => p c && str_forallb p s'
  end.

Fixpoint str_count (c : ascii) (s : string) : nat :=
  match s with
  | EmptyString => O
  | String d s' => (if Ascii.eqb d c then 1 else 0)%nat + str_count c s'
  end.

Definition newline : ascii := "010"%char.
Definition nl : string := String newline EmptyString.

(** Messages of the [translate] logger, kept as data. *)
Inductive LogEvent :=
  | LogModels (n : nat) (beam_size batch_size max_len : Z)
  | LogFiltersDisabled
  | LogFiltersEnabled
  | LogWillTranslate (splits : string)
  | LogInputConfiguration
  | LogInput (key : string) (p : Path)
  | LogStarting
  | LogTook (up_time : float) (sent_per_sec : Z).

(** ** Floating point: the throughput computation *)

(** The exact rational value of a finite binary float with sign [s],
    mantissa [m] and exponent [e]. *)
Definition finite_value (s : bool) (m : positive) (e : Z) : Q :=
  let sm := if s then Z.neg m else Z.pos m in
  if 0 <=? e then inject_Z (sm * 2 ^ e) else Qmake sm (2 ^ Z.to_pos (- e)).

(** The exact value of a float that is neither infinite nor NaN. *)
Definition sf_exact (x : spec_float) : option Q :=
  match x with
  | S754_zero _ => Some (inject_Z 0)
  | S754_finite s m e => Some (finite_value s m e)
  | S754_infinity _ | S754_nan => None
  end.

(** [math.floor(x)] for a float [x]. *)
Definition math_floor (x : float) : result Z :=
  match Prim2SF x with
  | S754_zero _ => Ok 0
  | S754_infinity _ => Raise OverflowError
  | S754_nan => Raise ValueError
  | S754_finite s m e => Ok (Qfloor (finite_value s m e))
  end.

(** [n / x] for a list length [n] and a float [x]: the length is converted
    to a float and divided; a zero divisor raises. *)
Definition int_truediv (n : nat) (x : float) : result float :=
  if PrimFloat.eqb x 0%float then Raise ZeroDivisionError
  else Ok (PrimFloat.div (PrimFloat.of_uint63 (Uint63.of_Z (Z.of_nat n))) x).

(** Line 119: [math.floor(len(hyps) / up_time)]. *)
Definition throughput (n_hyps : nat) (up_time : float) : result Z :=
  match int_truediv n_hyps up_time with
  | Ok q => math_floor q
  | Raise e => Raise e
  end.

(** ** The world the driver runs in *)

(** The file system as the driver sees it, the log of the [translate] logger
    and the number of clock readings taken so far. *)
Record World := mkWorld {
  files : gmap string File;
  log : list LogEvent;
  ticks : nat
}.

(** Computations that read and change the world and may raise; the world at
    the point of the exception is kept. *)
Definition M (A : Type) : Type := World → result A * World.

Definition ret {A} (a : A) : M A := λ w, (Ok a, w).
Definition raise {A} (e : exn) : M A := λ w, (Raise e, w).
Definition bind {A B} (m : M A) (k : A → M B) : M B :=
  λ w, match m w with
       | (Ok a, w') => k a w'
       | (Raise e, w') => (Raise e, w')
       end.
Definition lift {A} (r : result A) : M A :=
  match r with Ok a => ret a | Raise e => raise e end.

Global Instance M_ret : MRet M := @ret.
Global Instance M_bind : MBind M := λ A B k m, bind m k.

Definition logger_info (ev : LogEvent) : M unit :=
  λ w, (Ok (), mkWorld (files w) (log w ++ [ev]) (ticks w)).

(** [xs[0]]. *)
Definition index0 {A} (xs : list A) : result A :=
  match xs with
  | x :: _ => Ok x
  | [] => Raise IndexError
  end.

(** [d[k]] on a dict with string keys. *)
Definition getitem {A} (d : gmap string A) (k : string) : result A :=
  match d !! k with
  | Some a => Ok a
  | None => Raise (KeyError k)
  end.

(** ** Model instances and the collaborators (spec section 6) *)

(** The opaque data of a model instance. *)
Class ModelTypes := {
  Vocab : Type;
  Dataset : Type;
  Loader : Type;
  Weights : Type
}.

Record TrainOpts := mkTrainOpts {
  model_type : string;
  eval_filters : string
}.

Record Options := mkOptions {
  train : TrainOpts;
  data : gmap string (gmap string Path)
}.

Record Instance `{ModelTypes} := mkInstance {
  opts : Options;
  sl : string;
  n_trg_vocab : Z;
  trg_vocab : Vocab;
  datasets : gmap string Dataset;
  weights : Weights
}.

(** What the driver calls but does not define. [load_instance] stands for
    lines 38-50 (checkpoint read, model construction, weight loading, device
    placement, evaluation mode); [load_data] returns the instance as the
    call leaves it. The platform supplies the clock readings, the preferred
    text encoding and whether a path can be opened for writing. *)
Class External `{ModelTypes} := {
  load_instance : string → result Instance;
  load_data : Instance → string → result Instance;
  get_iterator : Dataset → Z → bool → result Loader;
  beam_search :
    Instance → Loader → Vocab → Z → Z → bool → bool → result (list string);
  named_filters : string → list (string → string);
  time_at : nat → float;
  preferred_encoding : Encoding;
  can_open_w : string → bool
}.

(** Modelled from the spec: [FilterChain] of [utils/filterchain.py], which is
    not among the sources. The spec describes it as an ordered pipeline of
    named text transforms built from the declared filter identifiers, applied
    to a list of strings 1:1 and in order: each transform in turn is applied
    to every string of the list. *)
Definition FilterChain `{External} (filters : string)
    (hyps : list string) : list string :=
  fold_left (λ strs func, map func strs) (named_filters filters) hyps.

(** ** The translator object *)

(** The keyword arguments of the constructor. *)
Record Kwargs := mkKwargs {
  kw_models : list string;
  kw_beam_size : Z;
  kw_batch_size : Z;
  kw_max_len : Z;
  kw_avoid_double : bool;
  kw_avoid_unk : bool;
  kw_disable_filters : bool;
  kw_output : string;
  kw_splits : option string;
  kw_source : option string
}.

(** [self.splits] holds the raw argument before resolution and a list of
    names after it. *)
Inductive SplitsAttr :=
  | Raw (arg : option string)
  | Names (names : list string).

Record Translator `{ModelTypes} := mkTranslator {
  models : list string;
  beam_size : Z;
  batch_size : Z;
  max_len : Z;
  avoid_double : bool;
  avoid_unk : bool;
  disable_filters : bool;
  output : string;
  splits : SplitsAttr;
  source : option string;
  n_models : nat;
  instances : list Instance;
  filter : list string → list string
}.

Section Driver.
Context `{External}.

(** Lines 83-88. *)
Definition sanity_check (instances : list Instance) : result unit :=
  let eval_filters : gset string :=
    list_to_set (map (λ i, eval_filters (train (opts i))) instances) in
  if decide (size eval_filters < 2)%nat then
    let n_trg_vocab : gset Z := list_to_set (map n_trg_vocab instances) in
    if decide (size n_trg_vocab = 1%nat) then Ok ()
    else Raise (AssertionError "target vocabularies differ.")
  else Raise (AssertionError "eval_filters differ between instances.").

(** Lines 34-51. *)
Fixpoint load_instances (model_files : list string)
    (acc : list Instance) : result (list Instance) :=
  match model_files with
  | [] => Ok acc
  | model_file :: rest =>
      match load_instance model_file with
      | Ok instance => load_instances rest (acc ++ [instance])
      | Raise e => Raise e
      end
  end.

(** Lines 75-78: the loop that fills [input_dict]. *)
Fixpoint parse_sources (data_sources : list string)
    (input_dict : gmap string Path) : M (gmap string Path) :=
  match data_sources with
  | [] => ret input_dict
  | data_source :: rest =>
      '(key, path) ← lift (unpack2 (str_split1 ":"%char data_source));
      let input_dict := <[key := mkPath path]> input_dict in
      p ← lift (getitem input_dict key);
      logger_info (LogInput key p) ;;
      parse_sources rest input_dict
  end.

(** Line 79: [instances[0].opts.data['new_set'] = input_dict]. *)
Definition register_new_set (instances : list Instance)
    (input_dict : gmap string Path) : result (list Instance) :=
  match instances with
  | i :: rest =>
      let o := mkOptions (train (opts i))
                 (<["new_set" := input_dict]> (data (opts i))) in
      Ok (mkInstance _ o (sl i) (n_trg_vocab i) (trg_vocab i)
            (datasets i) (weights i) :: rest)
  | [] => Raise IndexError
  end.

(** Lines 57-65: the choice of the post-processing transform. *)
Definition setup_filter (disable_filters : bool) (instances : list Instance)
    : M (list string → list string) :=
  i ← lift (index0 instances);
  let eval_filters := eval_filters (train (opts i)) in
  let src_lang := sl i in
  if disable_filters || negb (truthy (Some eval_filters)) then
    logger_info LogFiltersDisabled ;;
    ret (λ s, s)
  else
    logger_info LogFiltersEnabled ;;
    ret (FilterChain eval_filters).

(** Lines 68-80: split resolution, giving [self.splits] and the instances
    as the constructor leaves them. *)
Definition resolve_splits (splits source : option string)
    (instances : list Instance) : M (SplitsAttr * list Instance) :=
  if truthy splits then
    let s := default EmptyString splits in
    logger_info (LogWillTranslate s) ;;
    ret (Names (str_split ","%char s), instances)
  else if truthy source then
    logger_info LogInputConfiguration ;;
    input_dict ←
      parse_sources (str_split ","%char (default EmptyString source)) ∅;
    instances ← lift (register_new_set instances input_dict);
    ret (Names ["new"], instances)
  else ret (Raw splits, instances).

(** Lines 18-80: the constructor. *)
Definition init (kw : Kwargs) : M Translator :=
  let n_models := length (kw_models kw) in
  logger_info (LogModels n_models (kw_beam_size kw) (kw_batch_size kw)
                 (kw_max_len kw)) ;;
  instances ← lift (load_instances (kw_models kw) []);
  lift (sanity_check instances) ;;
  filter ← setup_filter (kw_disable_filters kw) instances;
  '(splits, instances) ←
    resolve_splits (kw_splits kw) (kw_source kw) instances;
  ret (mkTranslator _ (kw_models kw) (kw_beam_size kw) (kw_batch_size kw)
         (kw_max_len kw) (kw_avoid_double kw) (kw_avoid_unk kw)
         (kw_disable_filters kw) (kw_output kw) splits (kw_source kw)
         n_models instances filter).

(** [time.time()]. *)
Definition time_time : M float :=
  λ w, (Ok (time_at (ticks w)), mkWorld (files w) (log w) (S (ticks w))).

(** [self.instances[0]] after a call that changed the instance in place. *)
Definition with_primary (self : Translator) (instance : Instance)
    : Translator :=
  mkTranslator _ (models self) (beam_size self) (batch_size self)
    (max_len self) (avoid_double self) (avoid_unk self)
    (disable_filters self) (output self) (splits self) (source self)
    (n_models self) (instance :: tail (instances self)) (filter self).

(** Lines 105-121. The hypotheses and [self] as the call leaves it. *)
Definition translate (self : Translator) (instances_arg : list Instance)
    (split : string) : M (list string * Translator) :=
  instance ← lift (index0 (instances self));
  instance ← lift (load_data instance split);
  dataset ← lift (getitem (datasets instance) split);
  loader ← lift (get_iterator dataset (batch_size self) true);
  logger_info LogStarting ;;
  start ← time_time;
  hyps ← lift (beam_search instance loader (trg_vocab instance)
                  (beam_size self) (max_len self)
                  (avoid_double self) (avoid_unk self));
  stop ← time_time;
  let up_time := PrimFloat.sub stop start in
  rate ← lift (throughput (length hyps) up_time);
  logger_info (LogTook up_time rate) ;;
  ret (filter self hyps, with_primary self instance).

(** Lines 129-133. *)
Definition dump_suffix (self : Translator) : string :=
  let suffix := ".beam" +:+ format_int (beam_size self) in
  let suffix := if avoid_double self then suffix +:+ ".nodbl" else suffix in
  let suffix := if avoid_unk self then suffix +:+ ".nounk" else suffix in
  suffix.

(** Lines 135-138. *)
Definition dump_output (self : Translator) (split : string) : string :=
  let suffix := dump_suffix self in
  if String.eqb split "new" then output self +:+ suffix
  else output self +:+ "." +:+ split +:+ suffix.

(** [open(output, 'w')]: no encoding is given, so the platform's preferred
    one is used; the file is created or truncated. *)
Definition open_w (path : string) : M unit :=
  λ w, if can_open_w path
       then (Ok (), mkWorld (<[path := mkFile preferred_encoding EmptyString]>
                               (files w)) (log w) (ticks w))
       else (Raise (OSError path), w).

(** [f.write(s)] on the file opened at [path]. *)
Definition write (path : string) (s : string) : M unit :=
  λ w, match files w !! path with
       | Some f =>
           if str_forallb (encodable (encoding f)) s
           then (Ok (), mkWorld (<[path := mkFile (encoding f) (text f +:+ s)]>
                                   (files w)) (log w) (ticks w))
           else (Raise UnicodeEncodeError, w)
       | None => (Raise (OSError path), w)
       end.

(** Lines 141-142. *)
Fixpoint write_lines (path : string) (hyps : list string) : M unit :=
  match hyps with
  | [] => ret ()
  | line :: rest => write path (line +:+ nl) ;; write_lines path rest
  end.

(** Lines 129-142. *)
Definition dump (self : Translator) (hyps : list string) (split : string)
    : M unit :=
  let output := dump_output self split in
  open_w output ;;
  write_lines output hyps.

(** Lines 146-149 for the items [inputs] still to be visited. *)
Fixpoint call_loop (self : Translator) (inputs : list string)
    : M Translator :=
  match inputs with
  | [] => ret self
  | input_ :: rest =>
      '(hyps, self) ← translate self (instances self) input_;
      dump self hyps input_ ;;
      call_loop self rest
  end.

(** Iterating over a [str] visits its characters. *)
Fixpoint chars (s : string) : list string :=
  match s with
  | EmptyString => []
  | String c s' => String c EmptyString :: chars s'
  end.

(** Lines 144-149. *)
Definition call (self : Translator) : M Translator :=
  match splits self with
  | Names names => call_loop self names
  | Raw (Some s) => call_loop self (chars s)
  | Raw None => raise TypeError
  end.

End Driver.

(** ** A small concrete setting, for running the driver *)

Module Demo.

Definition types : ModelTypes :=
  {| Vocab := list string; Dataset := list string;
     Loader := list (list string); Weights := unit |}.

(** A checkpoint named [big...] has a larger target vocabulary and one
    named [low...] declares a filter; every checkpoint knows the split
    [test]. *)
Definition instance_of (model_file : string) : @Instance types :=
  let big := String.prefix "big" model_file in
  let low := String.prefix "low" model_file in
  @mkInstance types
    (mkOptions (mkTrainOpts "NMT" (if low then "lower" else ""))
       {["test_set" := {["src" := mkPath "test.src"]}]})
    "en" (if big then 200 else 100) ["<unk>"; "a"; "b"] ∅ tt.

Definition with_datasets (i : @Instance types)
    (d : gmap string (list string)) : @Instance types :=
  @mkInstance types (opts i) (sl i) (n_trg_vocab i) (trg_vocab i) d
    (weights i).

(** Loading a split reads one sentence per stream registered for it. *)
Definition load (i : @Instance types) (split : string)
    : result (@Instance types) :=
  match data (opts i) !! (split +:+ "_set") with
  | Some streams =>
      Ok (with_datasets i
            (<[split := (λ kp, path_str kp.2) <$> map_to_list streams]>
               (datasets i)))
  | None => Raise (Foreign "unknown split")
  end.

Definition external (clock : nat → float) (enc : Encoding)
    : @External types :=
  {| load_instance := λ f, if String.prefix "missing" f
                           then Raise (Foreign "no such checkpoint")
                           else Ok (instance_of f);
     load_data := load;
     get_iterator := λ d _ _, Ok [d];
     beam_search := λ _ loader _ _ _ _ _, Ok (concat loader);
     named_filters := λ f, if String.eqb f "lower"
                           then [λ s, s +:+ "!"] else [];
     time_at := clock;
     preferred_encoding := enc;
     can_open_w := λ p, negb (String.prefix "/proc" p) |}.

(** A clock that advances two seconds per reading, and one that stands
    still. *)
Definition ticking (n : nat) : float :=
  PrimFloat.of_uint63 (Uint63.of_Z (2 * Z.of_nat n)).
Definition frozen (n : nat) : float := 100%float.

Definition world0 : World := mkWorld ∅ [] 0.

Definition kwargs (models : list string) (beam : Z) (dbl unk : bool)
    (splits source : option string) : Kwargs :=
  mkKwargs models beam 32 100 dbl unk false "out/run" splits source.

(** A translator over one demo checkpoint, without filters. *)
Definition translator (beam : Z) (dbl unk : bool) (names : list string)
    : @Translator types :=
  @mkTranslator types ["m1"] beam 32 100 dbl unk false "out/run"
    (Names names) None 1 [instance_of "m1"] (λ s, s).

(** The usual platform: a running clock and UTF-8 as preferred encoding. *)
Definition posix : @External types := external ticking UTF8.

(** The usual platform with a search procedure that always fails. *)
Definition broken_search : @External types :=
  {| load_instance := @load_instance _ posix;
     load_data := @load_data _ posix;
     get_iterator := @get_iterator _ posix;
     beam_search := λ _ _ _ _ _ _ _, Raise (Foreign "search failed");
     named_filters := @named_filters _ posix;
     time_at := @time_at _ posix;
     preferred_encoding := @preferred_encoding _ posix;
     can_open_w := @can_open_w _ posix |}.

(** The translator the constructor builds, when it builds one. *)
Definition built (ext : @External types) (kw : Kwargs) : @Translator types :=
  match (@init types ext kw world0).1 with
  | Ok t => t
  | Raise _ => translator 0 false false []
  end.

(** The value and the world of a loop over [names] that ends normally. *)
Definition looped (ext : @External types) (t : @Translator types)
    (names : list string) : @Translator types * World :=
  match @call_loop types ext t names world0 with
  | (Ok t', w) => (t', w)
  | (Raise _, w) => (t, w)
  end.


(** A whole run: construction, then the loop over the splits. *)
Definition run (ext : @External types) (kw : Kwargs) : result unit * World :=
  match @init types ext kw world0 with
  | (Ok t, w) =>
      match @call types ext t w with
      | (Ok _, w') => (Ok (), w')
      | (Raise e, w') => (Raise e, w')
      end
  | (Raise e, w) => (Raise e, w)
  end.


(** A translator writing under another base path. *)
Definition translator_to (out : string) (names : list string)
    : @Translator types :=
  @mkTranslator types ["m1"] 4 32 100 false false false out
    (Names names) None 1 [instance_of "m1"] (λ s, s).

(** The value and the world of a translation that returns. *)
Definition translated (ext : @External types) (t : @Translator types)
    (split : string) (w : World)
    : (list string * @Translator types) * World :=
  match @translate types ext t (instances t) split w with
  | (Ok r, w') => (r, w')
  | (Raise _, w') => (([], t), w')
  end.


End Demo.

(** ** The naming scheme as the specification words it *)

(** Base path, then [.split] unless the split is [new], then [.beamB], then
    [.nodbl] and [.nounk] for the flags that are set. *)
Definition spec_split_part (split : string) : string :=
  if decide (split = "new") then "" else "." +:+ split.

Definition spec_output_path (base split : string) (B : Z)
    (avoid_repeat avoid_unknown : bool) : string :=
  base +:+ spec_split_part split +:+ ".beam" +:+ format_int B
       +:+ (if avoid_repeat then ".nodbl" else "")
       +:+ (if avoid_unknown then ".nounk" else "").

(** ** Source specifications as the specification words them *)

(** A [key:path] pair as written on the command line. *)
Definition pair_str (kp : string * string) : string :=
  kp.1 +:+ ":" +:+ kp.2.

(** The mapping from stream key to file path given by a list of pairs; a
    key given twice keeps its last path. *)
Definition spec_mapping (pairs : list (string * string)) : gmap string Path :=
  foldl (λ m kp, <[kp.1 := mkPath kp.2]> m) ∅ pairs.

(** An instance with its data options replaced. *)
Definition with_data `{ModelTypes} (i : Instance)
    (d : gmap string (gmap string Path)) : Instance :=
  mkInstance _ (mkOptions (train (opts i)) d) (sl i) (n_trg_vocab i)
    (trg_vocab i) (datasets i) (weights i).

(** A well-formed pair: no colon in the key and no comma in either part. *)
Definition wf_pair (kp : string * string) : Prop :=
  str_count ":" kp.1 = 0%nat ∧ str_count "," kp.1 = 0%nat
  ∧ str_count "," kp.2 = 0%nat.


(** The keyword arguments with another source specification. *)
Definition with_source (kw : Kwargs) (source : option string) : Kwargs :=
  mkKwargs (kw_models kw) (kw_beam_size kw) (kw_batch_size kw)
    (kw_max_len kw) (kw_avoid_double kw) (kw_avoid_unk kw)
    (kw_disable_filters kw) (kw_output kw) (kw_splits kw) source.


(** ** The filter stage and the written file as the specification words them *)


(** One hypothesis per line, each line ended by a newline character. *)
Definition spec_file_text (hyps : list string) : string :=
  foldr (λ line rest, line +:+ nl +:+ rest) "" hyps.

(** The outcome of a computation with its value mapped. *)
Definition result_map {A B} (f : A → B) (r : result A) : result B :=
  match r with Ok a => Ok (f a) | Raise e => Raise e end.


(** ** Notions used to state further properties *)

(** The path given last for stream key [k] in a list of pairs. *)
Definition last_path (k : string) (pairs : list (string * string))
    : option string :=
  snd <$> last (base.filter (λ kp, kp.1 = k) pairs).

(** Two translators with the same run settings, the same post-processing
    transform, the same split list and the same non-primary instances. *)
Definition same_settings `{ModelTypes} (t1 t2 : Translator) : Prop :=
  models t1 = models t2 ∧ beam_size t1 = beam_size t2
  ∧ batch_size t1 = batch_size t2 ∧ max_len t1 = max_len t2
  ∧ avoid_double t1 = avoid_double t2 ∧ avoid_unk t1 = avoid_unk t2
  ∧ disable_filters t1 = disable_filters t2 ∧ output t1 = output t2
  ∧ splits t1 = splits t2 ∧ source t1 = source t2
  ∧ n_models t1 = n_models t2 ∧ filter t1 = filter t2
  ∧ tail (instances t1) = tail (instances t2).


(** * Properties *)

(** ** Strings *)

Lemma str_app_nil_r (s : string) : s +:+ "" = s.
Proof.
  induction s as [|c s IH]; [done|].
  change (String c (s +:+ "") = String c s). by rewrite IH.
Qed.

Lemma str_app_assoc (a b c : string) : (a +:+ b) +:+ c = a +:+ b +:+ c.
Proof.
  induction a as [|x a IH]; [done|].
  change (String x ((a +:+ b) +:+ c) = String x (a +:+ b +:+ c)).
  by rewrite IH.
Qed.

Lemma str_length_app (a b : string) :
  String.length (a +:+ b) = (String.length a + String.length b)%nat.
Proof.
  induction a as [|x a IH]; [done|].
  change (S (String.length (a +:+ b)) = S (String.length a + String.length b)).
  by rewrite IH.
Qed.

Lemma str_app_inj_len (a b t u : string) :
  String.length a = String.length b → a +:+ t = b +:+ u → a = b ∧ t = u.
Proof.
  revert b. induction a as [|x a IH]; intros [|y b] Hlen Heq;
    try discriminate Hlen.
  - done.
  - injection Hlen as Hlen. injection Heq as -> Heq.
    destruct (IH b Hlen Heq) as [-> ->]. done.
Qed.

Lemma str_app_inj_r (a b t : string) : a +:+ t = b +:+ t → a = b.
Proof.
  intros Heq. apply (str_app_inj_len a b t t); [|done].
  apply (f_equal String.length) in Heq. rewrite !str_length_app in Heq. lia.
Qed.

Lemma str_app_inj_l (a t u : string) : a +:+ t = a +:+ u → t = u.
Proof. apply (inj (String.app a)). Qed.

Lemma spec_split_part_inj (s1 s2 : string) :
  spec_split_part s1 = spec_split_part s2 → s1 = s2.
Proof.
  unfold spec_split_part.
  destruct (decide (s1 = "new")) as [->|], (decide (s2 = "new")) as [->|];
    intros Heq; try done; try discriminate Heq.
  by injection Heq.
Qed.

Lemma str_split_nonempty (sep : ascii) (s : string) : str_split sep s ≠ [].
Proof.
  destruct s as [|c s]; simpl; [done|].
  destruct (Ascii.eqb c sep); [done|]. by destruct (str_split sep s).
Qed.

Lemma str_join_cons (sep w : string) (ws : list string) :
  ws ≠ [] → str_join sep (w :: ws) = w +:+ sep +:+ str_join sep ws.
Proof. by destruct ws. Qed.

(** Joining the pieces of a split gives the string back. *)
Lemma str_join_split (sep : ascii) (s : string) :
  str_join (String sep "") (str_split sep s) = s.
Proof.
  induction s as [|c s IH]; [done|]. simpl.
  pose proof (str_split_nonempty sep s) as Hne.
  destruct (Ascii.eqb_spec c sep) as [->|Hc].
  - rewrite str_join_cons by done. rewrite IH. reflexivity.
  - destruct (str_split sep s) as [|w ws]; [done|].
    destruct ws as [|w' ws].
    + simpl in *. by rewrite IH.
    + rewrite str_join_cons by done. rewrite str_join_cons in IH by done.
      rewrite <- IH. reflexivity.
Qed.

Lemma str_split_no_sep (sep : ascii) (w : string) :
  str_count sep w = 0%nat → str_split sep w = [w].
Proof.
  induction w as [|c w IH]; [done|]. simpl.
  destruct (Ascii.eqb c sep); [done|]. intros Hc. by rewrite IH.
Qed.

Lemma str_split_app_sep (sep : ascii) (w t : string) :
  str_count sep w = 0%nat →
  str_split sep (w +:+ String sep t) = w :: str_split sep t.
Proof.
  induction w as [|c w IH]; intros Hc.
  - change (str_split sep (String sep t) = "" :: str_split sep t).
    simpl. by rewrite Ascii.eqb_refl.
  - change (str_split sep (String c (w +:+ String sep t))
            = String c w :: str_split sep t).
    simpl in *. destruct (Ascii.eqb c sep); [done|]. by rewrite IH.
Qed.

(** Splitting a join of separator-free pieces gives the pieces back. *)
Lemma str_split_join (sep : ascii) (ps : list string) :
  ps ≠ [] → Forall (λ w, str_count sep w = 0%nat) ps →
  str_split sep (str_join (String sep "") ps) = ps.
Proof.
  induction ps as [|w ws IH]; [done|]. intros _ Hall.
  apply Forall_cons in Hall as [Hw Hws].
  destruct ws as [|w' ws]; [by apply str_split_no_sep|].
  rewrite str_join_cons by done.
  change (String sep "" +:+ ?t) with (String sep t).
  rewrite str_split_app_sep by done. by rewrite IH.
Qed.

Lemma str_split1_pair (sep : ascii) (k p : string) :
  str_count sep k = 0%nat → str_split1 sep (k +:+ String sep p) = [k; p].
Proof.
  induction k as [|c k IH]; intros Hc.
  - change (str_split1 sep (String sep p) = [""; p]).
    simpl. by rewrite Ascii.eqb_refl.
  - change (str_split1 sep (String c (k +:+ String sep p)) = [String c k; p]).
    simpl in *. destruct (Ascii.eqb c sep); [done|]. by rewrite IH.
Qed.

Lemma str_count_app (c : ascii) (a b : string) :
  str_count c (a +:+ b) = (str_count c a + str_count c b)%nat.
Proof.
  induction a as [|x a IH]; [done|].
  change (str_count c (String x (a +:+ b))
          = (str_count c (String x a) + str_count c b)%nat).
  simpl. rewrite IH. lia.
Qed.


Lemma str_split_pieces (sep : ascii) (s : string) :
  Forall (λ w, str_count sep w = 0%nat) (str_split sep s).
Proof.
  induction s as [|c s IH]; simpl; [by repeat constructor|].
  destruct (Ascii.eqb c sep) eqn:Hc; [by constructor|].
  destruct (str_split sep s) as [|w ws]; simpl.
  - repeat constructor. simpl. by rewrite Hc.
  - apply Forall_cons in IH as [Hw Hws]. constructor; [|done].
    simpl. by rewrite Hc.
Qed.

Lemma pairs_join_nonempty (pairs : list (string * string)) :
  pairs ≠ [] → str_join "," (map pair_str pairs) ≠ "".
Proof.
  destruct pairs as [|[k p] rest]; [done|]. intros _ Heq.
  apply (f_equal (str_count ":")) in Heq. revert Heq.
  destruct rest as [|kp rest].
  - simpl. unfold pair_str. simpl. rewrite !str_count_app. simpl. lia.
  - change (map pair_str ((k, p) :: kp :: rest))
      with (pair_str (k, p) :: map pair_str (kp :: rest)).
    rewrite str_join_cons by done. unfold pair_str at 1. simpl.
    rewrite !str_count_app. simpl. lia.
Qed.

Lemma pairs_no_comma (pairs : list (string * string)) :
  Forall wf_pair pairs →
  Forall (λ w, str_count "," w = 0%nat) (map pair_str pairs).
Proof.
  intros Hall. apply Forall_fmap. eapply Forall_impl; [exact Hall|].
  intros [k p] (Hk & Hkc & Hp). simpl in *. unfold pair_str. simpl.
  rewrite !str_count_app. simpl. lia.
Qed.


Section Properties.
Context `{External}.

(** ** Output naming *)

Lemma dump_output_spec (self : Translator) (split : string) :
  dump_output self split
  = spec_output_path (output self) split (beam_size self)
      (avoid_double self) (avoid_unk self).
Proof.
  unfold dump_output, dump_suffix, spec_output_path, spec_split_part.
  destruct (String.eqb_spec split "new") as [->|Hne].
  - rewrite decide_True by done.
    destruct (avoid_double self), (avoid_unk self);
      rewrite ?str_app_assoc, ?str_app_nil_r; reflexivity.
  - rewrite decide_False by done.
    destruct (avoid_double self), (avoid_unk self);
      rewrite ?str_app_assoc, ?str_app_nil_r; reflexivity.
Qed.

(** Writing touches no file but the one it is given. *)
Lemma write_frame (path s : string) (w : World) :
  delete path (files (write path s w).2) = delete path (files w).
Proof.
  unfold write. destruct (files w !! path) as [f|]; [|done].
  destruct (str_forallb _ s); [|done]. simpl. by rewrite delete_insert_eq.
Qed.

Lemma write_lines_frame (path : string) (hyps : list string) (w : World) :
  delete path (files (write_lines path hyps w).2) = delete path (files w).
Proof.
  revert w. induction hyps as [|line rest IH]; intros w; [done|].
  simpl. unfold mbind, M_bind, bind.
  pose proof (write_frame path (line +:+ nl) w) as Hw.
  destruct (write path (line +:+ nl) w) as [[[]|e] w']; simpl in *.
  - by rewrite IH.
  - done.
Qed.

Lemma write_keeps_open (path s : string) (w : World) :
  is_Some (files w !! path) → is_Some (files (write path s w).2 !! path).
Proof.
  intros [f Hf]. unfold write. rewrite Hf.
  destruct (str_forallb _ s); simpl; [|by rewrite Hf].
  rewrite lookup_insert_eq. eauto.
Qed.

Lemma write_lines_keeps_open (path : string) (hyps : list string) (w : World) :
  is_Some (files w !! path) →
  is_Some (files (write_lines path hyps w).2 !! path).
Proof.
  revert w. induction hyps as [|line rest IH]; intros w Hw; [done|].
  simpl. unfold mbind, M_bind, bind.
  pose proof (write_keeps_open path (line +:+ nl) w Hw) as Hw'.
  destruct (write path (line +:+ nl) w) as [[[]|e] w']; simpl in *; auto.
Qed.

(** C1. The path [dump] writes to is the base output path, then [.split]
    unless the split is the literal [new], then [.beamB] for the beam width
    [B], then [.nodbl] exactly when repeat avoidance is set, then [.nounk]
    exactly when unknown avoidance is set; [dump] changes no other file, and
    when it succeeds the file at that path exists. *)
Theorem C1_dump_path (self : Translator) (split : string) :
  let p := spec_output_path (output self) split (beam_size self)
             (avoid_double self) (avoid_unk self) in
  dump_output self split = p
  ∧ ∀ (hyps : list string) (w : World),
      delete p (files (dump self hyps split w).2) = delete p (files w)
      ∧ (is_ok (dump self hyps split w).1 = true →
         is_Some (files (dump self hyps split w).2 !! p)).
Proof.
  intros p. split; [apply dump_output_spec|].
  intros hyps w. unfold dump. rewrite dump_output_spec. fold p.
  unfold mbind, M_bind, bind, open_w.
  destruct (can_open_w p); simpl; [|done].
  set (w1 := mkWorld _ _ _).
  assert (Hopen : is_Some (files w1 !! p))
    by (subst w1; simpl; rewrite lookup_insert_eq; eauto).
  split.
  - rewrite write_lines_frame. subst w1. simpl. by rewrite delete_insert_eq.
  - intros _. by apply write_lines_keeps_open.
Qed.

(** C4. The output path depends on the base path, the split name, the beam
    width and the two flags only, and changing the split name, the beam
    width or either flag alone changes it. *)
Theorem C4_path_function :
  (∀ (self1 self2 : Translator) (split : string),
     output self1 = output self2 → beam_size self1 = beam_size self2 →
     avoid_double self1 = avoid_double self2 →
     avoid_unk self1 = avoid_unk self2 →
     dump_output self1 split = dump_output self2 split)
  ∧ (∀ (self1 self2 : Translator) (split1 split2 : string),
       output self1 = output self2 → beam_size self1 = beam_size self2 →
       avoid_double self1 = avoid_double self2 →
       avoid_unk self1 = avoid_unk self2 →
       split1 ≠ split2 →
       dump_output self1 split1 ≠ dump_output self2 split2)
  ∧ (∀ (self1 self2 : Translator) (split : string),
       output self1 = output self2 → beam_size self1 ≠ beam_size self2 →
       avoid_double self1 = avoid_double self2 →
       avoid_unk self1 = avoid_unk self2 →
       dump_output self1 split ≠ dump_output self2 split)
  ∧ (∀ (self1 self2 : Translator) (split : string),
       output self1 = output self2 → beam_size self1 = beam_size self2 →
       avoid_double self1 ≠ avoid_double self2 →
       avoid_unk self1 = avoid_unk self2 →
       dump_output self1 split ≠ dump_output self2 split)
  ∧ (∀ (self1 self2 : Translator) (split : string),
       output self1 = output self2 → beam_size self1 = beam_size self2 →
       avoid_double self1 = avoid_double self2 →
       avoid_unk self1 ≠ avoid_unk self2 →
       dump_output self1 split ≠ dump_output self2 split).
Proof.
  repeat split.
  - intros self1 self2 split Ho Hb Hd Hu.
    rewrite !dump_output_spec. congruence.
  - intros self1 self2 s1 s2 Ho Hb Hd Hu Hs. rewrite !dump_output_spec.
    rewrite Ho, Hb, Hd, Hu. unfold spec_output_path. intros Heq.
    apply str_app_inj_l in Heq. rewrite <- !str_app_assoc in Heq.
    repeat apply str_app_inj_r in Heq.
    by apply Hs, spec_split_part_inj.
  - intros self1 self2 split Ho Hb Hd Hu. rewrite !dump_output_spec.
    rewrite Ho, Hd, Hu. unfold spec_output_path. intros Heq.
    do 3 apply str_app_inj_l in Heq. rewrite <- !str_app_assoc in Heq.
    repeat apply str_app_inj_r in Heq.
    by apply Hb, (inj pretty).
  - intros self1 self2 split Ho Hb Hd Hu. rewrite !dump_output_spec.
    rewrite Ho, Hb, Hu. unfold spec_output_path. intros Heq.
    do 4 apply str_app_inj_l in Heq. apply str_app_inj_r in Heq.
    destruct (avoid_double self1), (avoid_double self2); done.
  - intros self1 self2 split Ho Hb Hd Hu. rewrite !dump_output_spec.
    rewrite Ho, Hb, Hd. unfold spec_output_path. intros Heq.
    do 5 apply str_app_inj_l in Heq.
    destruct (avoid_unk self1), (avoid_unk self2); done.
Qed.

(** ** The ensemble sanity check *)

Lemma size_list_to_set_1 `{Countable A} (l : list A) :
  l ≠ [] →
  size (list_to_set l : gset A) = 1%nat ↔ ∀ x y, x ∈ l → y ∈ l → x = y.
Proof.
  intros Hne. split.
  - intros Hsz x y Hx Hy.
    apply (size_singleton_inv (list_to_set l : gset A)); [done| |];
      by apply elem_of_list_to_set.
  - intros Hall. destruct l as [|a l]; [done|].
    assert (list_to_set (a :: l) = ({[a]} : gset A)) as ->.
    { apply set_eq. intros x. rewrite elem_of_list_to_set, elem_of_singleton.
      split; [intros Hx; apply Hall; [done|left]|intros ->; left]. }
    apply size_singleton.
Qed.

Lemma size_list_to_set_pos `{Countable A} (l : list A) :
  l ≠ [] → (0 < size (list_to_set l : gset A))%nat.
Proof.
  intros Hne. destruct l as [|a l]; [done|].
  assert (size (list_to_set (a :: l) : gset A) ≠ 0%nat); [|lia].
  apply size_non_empty_iff. intros Hemp.
  assert (a ∈ (list_to_set (a :: l) : gset A)) as Ha
    by (apply elem_of_list_to_set; left).
  rewrite Hemp in Ha. by apply not_elem_of_empty in Ha.
Qed.

Lemma map_agree {A B} (f : A → B) (l : list A) :
  (∀ x y, x ∈ map f l → y ∈ map f l → x = y)
  ↔ (∀ i j, i ∈ l → j ∈ l → f i = f j).
Proof.
  split.
  - intros Hall i j Hi Hj. apply Hall; apply list_elem_of_fmap; eauto.
  - intros Hall x y [i [-> Hi]]%list_elem_of_fmap [j [-> Hj]]%list_elem_of_fmap.
    by apply Hall.
Qed.

Lemma sanity_check_ok (instances : list Instance) :
  instances ≠ [] →
  sanity_check instances = Ok ()
  ↔ (∀ i j, i ∈ instances → j ∈ instances →
       eval_filters (train (opts i)) = eval_filters (train (opts j)))
    ∧ (∀ i j, i ∈ instances → j ∈ instances →
         n_trg_vocab i = n_trg_vocab j).
Proof.
  intros Hne. unfold sanity_check.
  set (fs := map (λ i, eval_filters (train (opts i))) instances).
  set (ns := map n_trg_vocab instances).
  assert (Hfs : fs ≠ []) by (subst fs; by destruct instances).
  assert (Hns : ns ≠ []) by (subst ns; by destruct instances).
  pose proof (size_list_to_set_pos fs Hfs) as Hpos.
  rewrite <- (map_agree (λ i, eval_filters (train (opts i)))).
  rewrite <- (map_agree n_trg_vocab).
  fold fs ns. rewrite <- (size_list_to_set_1 fs Hfs).
  rewrite <- (size_list_to_set_1 ns Hns).
  destruct (decide (size (list_to_set fs : gset string) < 2)%nat);
    destruct (decide (size (list_to_set ns : gset Z) = 1%nat));
    split; try done; try (intros [? ?]; try done; lia).
  intros _. split; [lia|done].
Qed.

Lemma sanity_check_raises (instances : list Instance) (e : exn) :
  sanity_check instances = Raise e → ∃ msg, e = AssertionError msg.
Proof.
  unfold sanity_check. repeat case_decide; intros Heq; simplify_eq; eauto.
Qed.

(** C2. A non-empty ensemble passes the sanity check exactly when all its
    instances have the same [eval_filters] and the same target-vocabulary
    size; an ensemble that does not pass makes the constructor raise an
    assertion error, with no translator built, no file touched and nothing
    logged but the opening message. *)
Theorem C2_sanity_check :
  (∀ instances : list Instance,
     instances ≠ [] →
     sanity_check instances = Ok ()
     ↔ (∀ i j, i ∈ instances → j ∈ instances →
          eval_filters (train (opts i)) = eval_filters (train (opts j)))
       ∧ (∀ i j, i ∈ instances → j ∈ instances →
            n_trg_vocab i = n_trg_vocab j))
  ∧ (∀ (kw : Kwargs) (w : World) (instances : list Instance),
       load_instances (kw_models kw) [] = Ok instances →
       sanity_check instances ≠ Ok () →
       (∃ msg, (init kw w).1 = Raise (AssertionError msg))
       ∧ files (init kw w).2 = files w
       ∧ log (init kw w).2
         = log w ++ [LogModels (length (kw_models kw)) (kw_beam_size kw)
                       (kw_batch_size kw) (kw_max_len kw)]).
Proof.
  split; [apply sanity_check_ok|].
  intros kw w instances Hload Hbad.
  unfold init, mbind, M_bind, bind, logger_info. simpl.
  rewrite Hload. simpl.
  destruct (sanity_check instances) as [[]|e] eqn:Hsc; [done|].
  apply sanity_check_raises in Hsc as [msg ->]. simpl. eauto.
Qed.

(** ** Split resolution *)

Lemma parse_sources_pairs (pairs : list (string * string))
    (m : gmap string Path) (w : World) :
  Forall wf_pair pairs →
  parse_sources (map pair_str pairs) m w
  = (Ok (foldl (λ m kp, <[kp.1 := mkPath kp.2]> m) m pairs),
     mkWorld (files w)
       (log w ++ map (λ kp, LogInput kp.1 (mkPath kp.2)) pairs) (ticks w)).
Proof.
  revert m w. induction pairs as [|[k p] rest IH]; intros m w Hall.
  - simpl. unfold ret. destruct w. simpl. by rewrite app_nil_r.
  - apply Forall_cons in Hall as [(Hk & _ & _) Hrest]. simpl in Hk.
    simpl. unfold mbind, M_bind, bind.
    change (pair_str (k, p)) with (k +:+ String ":" p).
    rewrite str_split1_pair by done. simpl.
    unfold getitem. rewrite lookup_insert_eq. simpl.
    rewrite IH by done. simpl. by rewrite <- app_assoc.
Qed.

Lemma truthy_nonempty (s : string) : s ≠ "" → truthy (Some s) = true.
Proof. intros Hs. simpl. by destruct (String.eqb_spec s ""). Qed.

Lemma resolve_explicit (s : string) (source : option string)
    (instances : list Instance) (w : World) :
  s ≠ "" →
  resolve_splits (Some s) source instances w
  = (Ok (Names (str_split "," s), instances),
     mkWorld (files w) (log w ++ [LogWillTranslate s]) (ticks w)).
Proof.
  intros Hs. unfold resolve_splits. rewrite truthy_nonempty by done.
  reflexivity.
Qed.

(** C3. An explicit split string resolves to its pieces between commas, in
    order (the pieces contain no comma and joined by commas give the string
    back; [a,b,c] gives [a], [b], [c]); a source specification made of
    [key:path] pairs, with no explicit splits, is parsed into the mapping
    from key to path, which is stored under [new_set] in the data options of
    the first instance, and the split list is [new] alone. *)
Theorem C3_split_resolution :
  (∀ (s : string) (source : option string) (instances : list Instance)
     (w : World),
     s ≠ "" →
     (resolve_splits (Some s) source instances w).1
     = Ok (Names (str_split "," s), instances)
     ∧ str_join "," (str_split "," s) = s
     ∧ Forall (λ name, str_count "," name = 0%nat) (str_split "," s))
  ∧ str_split "," "a,b,c" = ["a"; "b"; "c"]
  ∧ (∀ (pairs : list (string * string)) (splits : option string)
       (i : Instance) (rest : list Instance) (w : World),
       truthy splits = false → pairs ≠ [] → Forall wf_pair pairs →
       (resolve_splits splits (Some (str_join "," (map pair_str pairs)))
          (i :: rest) w).1
       = Ok (Names ["new"],
             with_data i (<["new_set" := spec_mapping pairs]> (data (opts i)))
               :: rest)).
Proof.
  split; [|split; [reflexivity|]].
  - intros s source instances w Hs. rewrite resolve_explicit by done.
    split; [done|]. split; [apply str_join_split|apply str_split_pieces].
  - intros pairs splits i rest w Hsp Hne Hwf.
    unfold resolve_splits. rewrite Hsp.
    rewrite truthy_nonempty by by apply pairs_join_nonempty.
    unfold mbind, M_bind, bind, logger_info. simpl.
    rewrite (str_split_join ","%char);
      [|by destruct pairs|by apply pairs_no_comma].
    rewrite parse_sources_pairs by done. reflexivity.
Qed.

Lemma sanity_check_nonempty (instances : list Instance) :
  sanity_check instances = Ok () → instances ≠ [].
Proof. intros Hsc ->. vm_compute in Hsc. discriminate Hsc. Qed.

(** C10. With a non-empty explicit split string the split list comes from
    it whatever source specification is given as well: the instances, and
    so the data options of the first one, are as they were loaded, and the
    world after construction is the one reached without any source
    specification. *)
Theorem C10_splits_precedence (kw : Kwargs) (w : World) (s : string)
    (loaded : list Instance) :
  kw_splits kw = Some s → s ≠ "" →
  load_instances (kw_models kw) [] = Ok loaded →
  sanity_check loaded = Ok () →
  ∃ t : Translator,
    (init kw w).1 = Ok t
    ∧ splits t = Names (str_split "," s)
    ∧ instances t = loaded
    ∧ (init kw w).2 = (init (with_source kw None) w).2.
Proof.
  intros Hsp Hs Hload Hsc.
  pose proof (sanity_check_nonempty loaded Hsc) as Hne.
  destruct loaded as [|i rest]; [done|].
  unfold init, mbind, M_bind, bind, logger_info. simpl.
  rewrite Hload, Hsp. simpl. rewrite Hsc. simpl.
  unfold setup_filter, mbind, M_bind, bind. simpl.
  destruct (kw_disable_filters kw || _); simpl;
    rewrite !resolve_explicit by done; simpl; eauto.
Qed.

(** ** The decode loop *)

(** C5. Decoding reads the first instance of the ensemble only: two
    translators with the same run settings and the same first instance give
    the same hypotheses, or raise the same exception, and leave the same
    world, whatever their other instances and whatever ensemble is passed
    as argument. *)
Theorem C5_primary_only (self1 self2 : Translator)
    (arg1 arg2 : list Instance) (split : string) (w : World) :
  head (instances self1) = head (instances self2) →
  batch_size self1 = batch_size self2 →
  beam_size self1 = beam_size self2 →
  max_len self1 = max_len self2 →
  avoid_double self1 = avoid_double self2 →
  avoid_unk self1 = avoid_unk self2 →
  filter self1 = filter self2 →
  result_map fst (translate self1 arg1 split w).1
  = result_map fst (translate self2 arg2 split w).1
  ∧ (translate self1 arg1 split w).2 = (translate self2 arg2 split w).2.
Proof.
  intros Hhd Hbatch Hbeam Hmax Hdbl Hunk Hflt.
  unfold translate, mbind, M_bind, bind.
  rewrite <- Hbatch, <- Hbeam, <- Hmax, <- Hdbl, <- Hunk, <- Hflt.
  destruct (instances self1) as [|i1 rest1], (instances self2) as [|i2 rest2];
    simplify_eq/=; [done|].
  destruct (load_data i2 split) as [i|e]; simpl; [|done].
  destruct (getitem (datasets i) split) as [d|e]; simpl; [|done].
  destruct (get_iterator d (batch_size self1) true) as [l|e]; simpl; [|done].
  destruct (beam_search i l (trg_vocab i) _ _ _ _) as [hyps|e]; simpl; [|done].
  destruct (throughput _ _) as [rate|e]; simpl; done.
Qed.

(** ** The filter stage *)





(** ** The per-split loop *)

Lemma translate_files (self : Translator) (arg : list Instance)
    (split : string) (w : World) :
  files (translate self arg split w).2 = files w.
Proof.
  unfold translate, mbind, M_bind, bind.
  destruct (index0 (instances self)) as [i0|e]; simpl; [|done].
  destruct (load_data i0 split) as [i|e]; simpl; [|done].
  destruct (getitem (datasets i) split) as [d|e]; simpl; [|done].
  destruct (get_iterator d (batch_size self) true) as [l|e]; simpl; [|done].
  destruct (beam_search i l (trg_vocab i) _ _ _ _) as [hyps|e]; simpl; [|done].
  destruct (throughput _ _) as [rate|e]; simpl; done.
Qed.

Lemma translate_ok_self (self self' : Translator) (arg : list Instance)
    (split : string) (w w' : World) (hyps : list string) :
  translate self arg split w = (Ok (hyps, self'), w') →
  ∃ i, self' = with_primary self i.
Proof.
  unfold translate, mbind, M_bind, bind.
  destruct (index0 (instances self)) as [i0|e]; simpl; [|done].
  destruct (load_data i0 split) as [i|e]; simpl; [|done].
  destruct (getitem (datasets i) split) as [d|e]; simpl; [|done].
  destruct (get_iterator d (batch_size self) true) as [l|e]; simpl; [|done].
  destruct (beam_search i l (trg_vocab i) _ _ _ _) as [hs|e]; simpl; [|done].
  destruct (throughput _ _) as [rate|e]; simpl; [|done].
  intros [= _ <- _]. eauto.
Qed.

Lemma dump_frame (self : Translator) (hyps : list string) (split : string)
    (w : World) (p : string) :
  p ≠ dump_output self split →
  files (dump self hyps split w).2 !! p = files w !! p.
Proof.
  intros Hp. unfold dump, mbind, M_bind, bind, open_w.
  set (q := dump_output self split) in *.
  assert (Hdel : ∀ m m' : gmap string File,
             delete q m = delete q m' → m !! p = m' !! p).
  { intros m m' Hd. rewrite <- (lookup_delete_ne m q p) by done.
    rewrite Hd. by rewrite lookup_delete_ne. }
  destruct (can_open_w q); simpl; [|done].
  apply Hdel. rewrite write_lines_frame. simpl. by rewrite delete_insert_eq.
Qed.

Lemma dump_keeps (self : Translator) (hyps : list string) (split : string)
    (w : World) (p : string) :
  is_Some (files w !! p) → is_Some (files (dump self hyps split w).2 !! p).
Proof.
  intros Hp. destruct (decide (p = dump_output self split)) as [->|Hne].
  - unfold dump, mbind, M_bind, bind, open_w.
    destruct (can_open_w _); simpl; [|done].
    apply write_lines_keeps_open. simpl. rewrite lookup_insert_eq. eauto.
  - by rewrite dump_frame.
Qed.

Lemma dump_ok_creates (self : Translator) (hyps : list string)
    (split : string) (w w' : World) :
  dump self hyps split w = (Ok (), w') →
  is_Some (files w' !! dump_output self split).
Proof.
  unfold dump, mbind, M_bind, bind, open_w.
  destruct (can_open_w _); simpl; [|done]. intros Hd.
  replace w' with (write_lines (dump_output self split) hyps
    (mkWorld (<[dump_output self split := mkFile preferred_encoding ""]>
                (files w)) (log w) (ticks w))).2 by by rewrite Hd.
  apply write_lines_keeps_open. simpl. rewrite lookup_insert_eq. eauto.
Qed.

Lemma call_loop_app (self : Translator) (pre post : list string) (w : World) :
  call_loop self (pre ++ post) w
  = match call_loop self pre w with
    | (Ok self1, w1) => call_loop self1 post w1
    | (Raise e, w1) => (Raise e, w1)
    end.
Proof.
  revert self w. induction pre as [|s pre IH]; intros self w; [done|].
  simpl. unfold mbind, M_bind, bind.
  destruct (translate self (instances self) s w) as [[[hyps self1]|e] w1];
    [|done].
  destruct (dump self1 hyps s w1) as [[[]|e] w2]; [|done].
  apply IH.
Qed.

Lemma call_loop_ok (self self' : Translator) (names : list string)
    (w w' : World) :
  call_loop self names w = (Ok self', w') →
  (∀ p, is_Some (files w !! p) → is_Some (files w' !! p))
  ∧ (∀ s, s ∈ names → is_Some (files w' !! dump_output self s))
  ∧ (∀ p, p ∉ map (dump_output self) names → files w' !! p = files w !! p).
Proof.
  revert self w. induction names as [|s rest IH]; intros self w.
  - simpl. intros [= <- <-]. split; [done|]. split; [|done].
    intros s Hs. by apply elem_of_nil in Hs.
  - simpl. unfold mbind, M_bind, bind.
    pose proof (translate_files self (instances self) s w) as Hfiles.
    destruct (translate self (instances self) s w)
      as [[[hyps self1]|e] w1] eqn:Htr; [|done].
    apply translate_ok_self in Htr as [i ->]. simpl in Hfiles.
    set (self1 := with_primary self i) in *.
    assert (Hout : ∀ x, dump_output self1 x = dump_output self x) by done.
    pose proof (dump_keeps self1 hyps s w1) as Hkeep.
    pose proof (dump_frame self1 hyps s w1) as Hframe.
    destruct (dump self1 hyps s w1) as [[[]|e] w2] eqn:Hd; [|done].
    apply dump_ok_creates in Hd. simpl in *.
    intros Hloop. apply IH in Hloop as (Hk & Hall & Hfr).
    split; [|split].
    + intros p Hp. apply Hk, Hkeep. by rewrite Hfiles.
    + intros x [->|Hx]%elem_of_cons.
      * apply Hk. by rewrite <- Hout.
      * rewrite <- Hout. by apply Hall.
    + intros p Hp. apply not_elem_of_cons in Hp as [Hps Hp].
      rewrite Hfr by (by rewrite (map_ext _ _ Hout)). 
      rewrite Hframe by (by rewrite Hout). by rewrite Hfiles.
Qed.

(** C7. The splits are handled one after the other, all or nothing:
    translating a split never touches a file, so a split's file is written
    only once its translation has returned; when the splits before some
    split went through and the translation of that split raises, the run
    stops with that exception in the world reached at that point, with the
    files exactly as the earlier splits left them, whatever splits follow;
    a run that ends normally has written the file of every split and
    changed no other path; and the translation of a split does raise, so
    that the run stops in this way, when loading the data of the split
    fails, when the split has no dataset after loading, when the iterator
    cannot be made, and when the search procedure fails: in the first three
    cases the world is the one the earlier splits left, in the last it has
    in addition the start message and one clock reading. *)
Theorem C7_total_or_nothing (self : Translator) :
  (∀ (arg : list Instance) (split : string) (w : World),
     files (translate self arg split w).2 = files w)
  ∧ (∀ (pre post : list string) (s : string) (w w1 w2 : World)
       (self1 : Translator) (e : exn),
       splits self = Names (pre ++ s :: post) →
       call_loop self pre w = (Ok self1, w1) →
       translate self1 (instances self1) s w1 = (Raise e, w2) →
       call self w = (Raise e, w2) ∧ files w2 = files w1)
  ∧ (∀ (names : list string) (w w' : World) (self' : Translator),
       splits self = Names names →
       call self w = (Ok self', w') →
       (∀ s, s ∈ names → is_Some (files w' !! dump_output self s))
       ∧ (∀ p, p ∉ map (dump_output self) names →
            files w' !! p = files w !! p))
  ∧ (∀ (pre post : list string) (s : string) (w w1 : World)
       (self1 : Translator) (i0 : Instance) (e : exn),
       splits self = Names (pre ++ s :: post) →
       call_loop self pre w = (Ok self1, w1) →
       index0 (instances self1) = Ok i0 →
       load_data i0 s = Raise e →
       call self w = (Raise e, w1))
  ∧ (∀ (pre post : list string) (s : string) (w w1 : World)
       (self1 : Translator) (i0 i1 : Instance),
       splits self = Names (pre ++ s :: post) →
       call_loop self pre w = (Ok self1, w1) →
       index0 (instances self1) = Ok i0 →
       load_data i0 s = Ok i1 →
       datasets i1 !! s = None →
       call self w = (Raise (KeyError s), w1))
  ∧ (∀ (pre post : list string) (s : string) (w w1 : World)
       (self1 : Translator) (i0 i1 : Instance) (d : Dataset) (e : exn),
       splits self = Names (pre ++ s :: post) →
       call_loop self pre w = (Ok self1, w1) →
       index0 (instances self1) = Ok i0 →
       load_data i0 s = Ok i1 →
       datasets i1 !! s = Some d →
       get_iterator d (batch_size self1) true = Raise e →
       call self w = (Raise e, w1))
  ∧ (∀ (pre post : list string) (s : string) (w w1 : World)
       (self1 : Translator) (i0 i1 : Instance) (d : Dataset) (l : Loader)
       (e : exn),
       splits self = Names (pre ++ s :: post) →
       call_loop self pre w = (Ok self1, w1) →
       index0 (instances self1) = Ok i0 →
       load_data i0 s = Ok i1 →
       datasets i1 !! s = Some d →
       get_iterator d (batch_size self1) true = Ok l →
       beam_search i1 l (trg_vocab i1) (beam_size self1) (max_len self1)
         (avoid_double self1) (avoid_unk self1) = Raise e →
       call self w
       = (Raise e,
          mkWorld (files w1) (log w1 ++ [LogStarting]) (S (ticks w1)))).
Proof.
  split; [|split; [|split; [|split; [|split; [|split]]]]].
  - intros arg split w. apply translate_files.
  - intros pre post s w w1 w2 self1 e Hsp Hpre Htr.
    unfold call. rewrite Hsp, call_loop_app, Hpre. simpl.
    unfold mbind, M_bind, bind. rewrite Htr. split; [done|].
    pose proof (translate_files self1 (instances self1) s w1) as Hf.
    by rewrite Htr in Hf.
  - intros names w w' self' Hsp. unfold call. rewrite Hsp.
    intros Hloop. apply call_loop_ok in Hloop as (_ & Hall & Hfr). done.
  - intros pre post s w w1 self1 i0 e Hsp Hpre Hi0 Hload.
    unfold call. rewrite Hsp, call_loop_app, Hpre. simpl.
    unfold translate, mbind, M_bind, bind.
    rewrite Hi0. simpl. by rewrite Hload.
  - intros pre post s w w1 self1 i0 i1 Hsp Hpre Hi0 Hload Hds.
    unfold call. rewrite Hsp, call_loop_app, Hpre. simpl.
    unfold translate, mbind, M_bind, bind, getitem.
    rewrite Hi0. simpl. rewrite Hload. simpl. by rewrite Hds.
  - intros pre post s w w1 self1 i0 i1 d e Hsp Hpre Hi0 Hload Hds Hit.
    unfold call. rewrite Hsp, call_loop_app, Hpre. simpl.
    unfold translate, mbind, M_bind, bind, getitem.
    rewrite Hi0. simpl. rewrite Hload. simpl. rewrite Hds. simpl.
    by rewrite Hit.
  - intros pre post s w w1 self1 i0 i1 d l e Hsp Hpre Hi0 Hload Hds Hit Hs.
    unfold call. rewrite Hsp, call_loop_app, Hpre. simpl.
    unfold translate, mbind, M_bind, bind, getitem.
    rewrite Hi0. simpl. rewrite Hload. simpl. rewrite Hds. simpl.
    rewrite Hit. simpl. by rewrite Hs.
Qed.

(** ** The written file *)

Lemma str_forallb_app (p : ascii → bool) (a b : string) :
  str_forallb p (a +:+ b) = str_forallb p a && str_forallb p b.
Proof.
  induction a as [|c a IH]; [done|].
  change (p c && str_forallb p (a +:+ b)
          = p c && str_forallb p a && str_forallb p b).
  rewrite IH. by rewrite andb_assoc.
Qed.

Lemma encodable_line (enc : Encoding) (line : string) :
  str_forallb (encodable enc) line = true →
  str_forallb (encodable enc) (line +:+ nl) = true.
Proof.
  intros Hl. rewrite str_forallb_app, Hl. by destruct enc.
Qed.

Lemma write_lines_ok (path : string) (hyps : list string) (w : World)
    (enc : Encoding) (txt : string) :
  files w !! path = Some (mkFile enc txt) →
  Forall (λ line, str_forallb (encodable enc) line = true) hyps →
  write_lines path hyps w
  = (Ok (), mkWorld (<[path := mkFile enc (txt +:+ spec_file_text hyps)]>
                       (files w)) (log w) (ticks w)).
Proof.
  revert w txt. induction hyps as [|line rest IH]; intros w txt Hf Hall.
  - simpl. unfold ret. rewrite str_app_nil_r.
    rewrite insert_id by done. by destruct w.
  - apply Forall_cons in Hall as [Hl Hrest].
    simpl. unfold mbind, M_bind, bind, write. rewrite Hf. simpl.
    rewrite encodable_line by done.
    erewrite IH; [|simpl; apply lookup_insert_eq|done]. simpl.
    rewrite insert_insert_eq. by rewrite !str_app_assoc.
Qed.

Lemma spec_file_text_lines (hyps : list string) :
  Forall (λ line, str_count newline line = 0%nat) hyps →
  str_count newline (spec_file_text hyps) = length hyps.
Proof.
  induction 1 as [|line rest Hl _ IH]; [done|].
  simpl. rewrite !str_count_app, Hl, IH. reflexivity.
Qed.

(** C8 (amended). [dump] opens the derived path for writing in the
    platform's preferred text encoding, replacing whatever file was there;
    when the path can be opened and every character of the hypotheses can
    be encoded, the file holds the hypotheses in input order, each followed
    by a newline character, and no other file changes; its number of
    newline characters is the number of hypotheses when no hypothesis
    contains one. *)
Theorem C8_dump_file (self : Translator) (hyps : list string)
    (split : string) (w : World) :
  can_open_w (dump_output self split) = true →
  Forall (λ line, str_forallb (encodable preferred_encoding) line = true)
    hyps →
  dump self hyps split w
  = (Ok (),
     mkWorld (<[dump_output self split
                := mkFile preferred_encoding (spec_file_text hyps)]> (files w))
       (log w) (ticks w))
  ∧ (Forall (λ line, str_count newline line = 0%nat) hyps →
     str_count newline (spec_file_text hyps) = length hyps).
Proof.
  intros Hopen Henc. split; [|apply spec_file_text_lines].
  unfold dump, mbind, M_bind, bind, open_w. rewrite Hopen.
  erewrite write_lines_ok; [|simpl; apply lookup_insert_eq|done].
  simpl. by rewrite insert_insert_eq.
Qed.

(** ** Throughput *)

Lemma Qfloor_bounds (x : Q) :
  Qle (inject_Z (Qfloor x)) x ∧ Qlt x (inject_Z (Qfloor x + 1)).
Proof. split; [apply Qfloor_le|apply Qlt_floor]. Qed.

Lemma math_floor_exact (x : float) (v : Q) :
  sf_exact (Prim2SF x) = Some v →
  ∃ z, math_floor x = Ok z
       ∧ Qle (inject_Z z) v ∧ Qlt v (inject_Z (z + 1)).
Proof.
  unfold math_floor. destruct (Prim2SF x) as [s|s| |s m e]; simpl;
    intros Hv; simplify_eq.
  - exists 0. split; [done|]. split; [apply Qle_refl|reflexivity].
  - eexists. split; [done|]. apply Qfloor_bounds.
Qed.

(** C9 (amended). When the steps before it succeed, [translate] takes the
    elapsed time as the difference of two clock readings. If that
    difference is not zero and the float quotient of the hypothesis count by
    it is finite, the value logged is the floor of that quotient and the
    filtered hypotheses are returned. Nothing guards the division: if the
    difference is zero, [translate] raises [ZeroDivisionError]. *)
Theorem C9_throughput (self : Translator) (arg : list Instance)
    (split : string) (w : World) (i0 i1 : Instance) (d : Dataset)
    (l : Loader) (hyps : list string) :
  index0 (instances self) = Ok i0 →
  load_data i0 split = Ok i1 →
  getitem (datasets i1) split = Ok d →
  get_iterator d (batch_size self) true = Ok l →
  beam_search i1 l (trg_vocab i1) (beam_size self) (max_len self)
    (avoid_double self) (avoid_unk self) = Ok hyps →
  let up_time := PrimFloat.sub (time_at (S (ticks w))) (time_at (ticks w)) in
  let q := PrimFloat.div
             (PrimFloat.of_uint63 (Uint63.of_Z (Z.of_nat (length hyps))))
             up_time in
  (PrimFloat.eqb up_time 0%float = true →
   (translate self arg split w).1 = Raise ZeroDivisionError)
  ∧ (PrimFloat.eqb up_time 0%float = false →
     ∀ v : Q, sf_exact (Prim2SF q) = Some v →
     ∃ rate : Z,
       (translate self arg split w).1
       = Ok (filter self hyps, with_primary self i1)
       ∧ log (translate self arg split w).2
         = log w ++ [LogStarting; LogTook up_time rate]
       ∧ Qle (inject_Z rate) v ∧ Qlt v (inject_Z (rate + 1))).
Proof.
  intros Hi0 Hi1 Hd Hl Hs up_time q.
  unfold translate, mbind, M_bind, bind.
  rewrite Hi0. simpl. rewrite Hi1. simpl. rewrite Hd. simpl.
  rewrite Hl. simpl. rewrite Hs. simpl.
  fold up_time. unfold throughput, int_truediv. split.
  - intros ->. reflexivity.
  - intros -> v Hv. fold q.
    destruct (math_floor_exact q v Hv) as (z & -> & Hle & Hlt). simpl.
    exists z. rewrite <- app_assoc. done.
Qed.

End Properties.

(** * Further properties of the driver *)

Section Further.
Context `{External}.

(** ** Which assertion fails *)

Lemma sanity_check_empty : 
  sanity_check [] = Raise (AssertionError "target vocabularies differ.").
Proof. vm_compute. reflexivity. Qed.

(** X1. The two assertions of the sanity check are tried in order: the
    message about [eval_filters] is raised exactly when the instances do not
    all have the same [eval_filters], and the message about target
    vocabularies exactly when they do but the ensemble is empty or the
    vocabulary sizes are not all the same. *)
Theorem X1_sanity_messages (instances : list Instance) :
  (sanity_check instances
   = Raise (AssertionError "eval_filters differ between instances.")
   ↔ ¬ (∀ i j, i ∈ instances → j ∈ instances →
          eval_filters (train (opts i)) = eval_filters (train (opts j))))
  ∧ (sanity_check instances
     = Raise (AssertionError "target vocabularies differ.")
     ↔ (∀ i j, i ∈ instances → j ∈ instances →
          eval_filters (train (opts i)) = eval_filters (train (opts j)))
       ∧ (instances = []
          ∨ ¬ (∀ i j, i ∈ instances → j ∈ instances →
                 n_trg_vocab i = n_trg_vocab j))).
Proof.
  destruct (decide (instances = [])) as [->|Hne].
  { rewrite sanity_check_empty. split; split.
    - discriminate.
    - intros Hno. destruct Hno. intros i j Hi. by apply elem_of_nil in Hi.
    - intros _. split; [|by left]. intros i j Hi. by apply elem_of_nil in Hi.
    - done. }
  unfold sanity_check.
  set (fs := map (λ i, eval_filters (train (opts i))) instances).
  set (ns := map n_trg_vocab instances).
  assert (Hfs : fs ≠ []) by (subst fs; by destruct instances).
  assert (Hns : ns ≠ []) by (subst ns; by destruct instances).
  pose proof (size_list_to_set_pos fs Hfs) as Hpos.
  rewrite <- (map_agree (λ i, eval_filters (train (opts i)))).
  rewrite <- (map_agree n_trg_vocab).
  fold fs ns. rewrite <- (size_list_to_set_1 fs Hfs).
  rewrite <- (size_list_to_set_1 ns Hns).
  destruct (decide (size (list_to_set fs : gset string) < 2)%nat);
    destruct (decide (size (list_to_set ns : gset Z) = 1%nat));
    split; split; try done; try discriminate; try lia;
    try (intros [? [?|?]]; done || lia);
    intros _; try lia; (split; [lia|by right]).
Qed.

(** ** Source specifications that are not made of pairs *)

Lemma str_split1_shape (sep : ascii) (s : string) :
  (str_count sep s = 0%nat ∧ str_split1 sep s = [s])
  ∨ (∃ k p, str_split1 sep s = [k; p]).
Proof.
  induction s as [|c s IH]; [by left|]. simpl.
  destruct (Ascii.eqb c sep); [right; eauto|].
  destruct IH as [[Hc ->]|(k & p & ->)]; [by left|right; eauto].
Qed.

Lemma parse_sources_files (pieces : list string) (m : gmap string Path)
    (w : World) :
  files (parse_sources pieces m w).2 = files w
  ∧ ticks (parse_sources pieces m w).2 = ticks w.
Proof.
  revert m w. induction pieces as [|piece rest IH]; intros m w; [done|].
  simpl. unfold mbind, M_bind, bind.
  destruct (str_split1_shape ":" piece) as [[_ ->]|(k & p & ->)]; [done|].
  simpl. unfold getitem. rewrite lookup_insert_eq. simpl.
  destruct (IH (<[k := mkPath p]> m)
              (mkWorld (files w) (log w ++ [LogInput k (mkPath p)]) (ticks w)))
    as [Hf Ht].
  by rewrite Hf, Ht.
Qed.

Lemma parse_sources_malformed (pieces : list string) (m : gmap string Path)
    (w : World) :
  Exists (λ piece, str_count ":" piece = 0%nat) pieces →
  (parse_sources pieces m w).1 = Raise ValueError.
Proof.
  intros Hex. revert m w.
  induction Hex as [piece rest Hbad|piece rest Hex IH]; intros m w.
  - simpl. unfold mbind, M_bind, bind.
    destruct (str_split1_shape ":" piece) as [[_ ->]|(k & p & Hkp)]; [done|].
    exfalso. clear -Hbad Hkp. revert k p Hkp.
    induction piece as [|c s IHs]; intros k p; [done|]. simpl in *.
    destruct (Ascii.eqb c ":"); [done|].
    destruct (str_split1 ":" s) as [|a [|b [|? ?]]] eqn:Hs; try done.
    intros _. by eapply IHs.
  - simpl. unfold mbind, M_bind, bind.
    destruct (str_split1_shape ":" piece) as [[_ ->]|(k & p & ->)]; [done|].
    simpl. unfold getitem. rewrite lookup_insert_eq. simpl. apply IH.
Qed.

(** X2. With no explicit splits, a source specification one of whose
    comma-separated pieces has no colon makes the constructor raise
    [ValueError]: no translator is built and no file is touched. *)
Theorem X2_malformed_source (kw : Kwargs) (w : World) (src : string)
    (loaded : list Instance) :
  load_instances (kw_models kw) [] = Ok loaded →
  sanity_check loaded = Ok () →
  truthy (kw_splits kw) = false →
  kw_source kw = Some src → src ≠ "" →
  Exists (λ piece, str_count ":" piece = 0%nat) (str_split "," src) →
  (init kw w).1 = Raise ValueError ∧ files (init kw w).2 = files w.
Proof.
  intros Hload Hsc Hsp Hsrc Hne Hbad.
  pose proof (sanity_check_nonempty loaded Hsc) as Hl.
  destruct loaded as [|i rest]; [done|].
  unfold init, mbind, M_bind, bind, logger_info. simpl.
  rewrite Hload. simpl. rewrite Hsc. simpl.
  unfold setup_filter, mbind, M_bind, bind. simpl.
  assert (Hres : ∀ w0, (resolve_splits (kw_splits kw) (kw_source kw)
                          (i :: rest) w0).1 = Raise ValueError
                       ∧ files (resolve_splits (kw_splits kw) (kw_source kw)
                                  (i :: rest) w0).2 = files w0).
  { intros w0. unfold resolve_splits. rewrite Hsp, Hsrc.
    rewrite truthy_nonempty by done.
    unfold mbind, M_bind, bind, logger_info. simpl.
    set (w1 := mkWorld _ _ _).
    pose proof (parse_sources_malformed (str_split "," src) ∅ w1 Hbad) as He.
    pose proof (parse_sources_files (str_split "," src) ∅ w1) as [Hf _].
    destruct (parse_sources (str_split "," src) ∅ w1) as [[m|e] w2];
      simpl in *; by simplify_eq. }
  destruct (kw_disable_filters kw || _); simpl.
  - match goal with |- context [resolve_splits ?a ?b ?c ?d] =>
      destruct (Hres d) as [He Hf];
      destruct (resolve_splits a b c d) as [[r|e] w3] end;
      simpl in *; by simplify_eq.
  - match goal with |- context [resolve_splits ?a ?b ?c ?d] =>
      destruct (Hres d) as [He Hf];
      destruct (resolve_splits a b c d) as [[r|e] w3] end;
      simpl in *; by simplify_eq.
Qed.

(** ** Keys given more than once *)

Lemma foldl_insert_last (pairs : list (string * string))
    (m : gmap string Path) (k : string) :
  foldl (λ m kp, <[kp.1 := mkPath kp.2]> m) m pairs !! k
  = match last_path k pairs with
    | Some p => Some (mkPath p)
    | None => m !! k
    end.
Proof.
  unfold last_path.
  induction pairs as [|[k' p'] pairs IH] using rev_ind; [done|].
  rewrite foldl_app, filter_app. simpl.
  destruct (decide (k' = k)) as [->|Hk].
  - rewrite lookup_insert_eq.
    rewrite (filter_cons_True (λ kp, kp.1 = k)) by done.
    rewrite filter_nil, last_snoc. done.
  - rewrite lookup_insert_ne by done.
    rewrite (filter_cons_False (λ kp, kp.1 = k)) by done.
    rewrite filter_nil, app_nil_r. done.
Qed.

(** X3. When a source specification of well-formed pairs is resolved, the
    mapping stored under [new_set] has an entry for exactly the keys that
    occur, each with the path of its last occurrence, and every other entry
    of the data options is left as it was. *)
Theorem X3_last_pair_wins (pairs : list (string * string))
    (splits : option string) (i : Instance) (rest : list Instance)
    (w : World) :
  truthy splits = false → pairs ≠ [] → Forall wf_pair pairs →
  ∃ (i' : Instance) (m : gmap string Path),
    (resolve_splits splits (Some (str_join "," (map pair_str pairs)))
       (i :: rest) w).1 = Ok (Names ["new"], i' :: rest)
    ∧ data (opts i') !! "new_set" = Some m
    ∧ (∀ k, m !! k = mkPath <$> last_path k pairs)
    ∧ (∀ key, key ≠ "new_set" → data (opts i') !! key = data (opts i) !! key)
    ∧ train (opts i') = train (opts i).
Proof.
  intros Hsp Hne Hwf.
  exists (with_data i (<["new_set" := spec_mapping pairs]> (data (opts i)))),
    (spec_mapping pairs).
  split; [|split; [|split; [|split]]].
  - unfold resolve_splits. rewrite Hsp.
    rewrite truthy_nonempty by by apply pairs_join_nonempty.
    unfold mbind, M_bind, bind, logger_info. simpl.
    rewrite (str_split_join ","%char);
      [|by destruct pairs|by apply pairs_no_comma].
    rewrite parse_sources_pairs by done. reflexivity.
  - simpl. apply lookup_insert_eq.
  - intros k. unfold spec_mapping. rewrite foldl_insert_last.
    rewrite lookup_empty. by destruct (last_path k pairs).
  - intros key Hkey. simpl. by rewrite lookup_insert_ne.
  - reflexivity.
Qed.


(** ** What the constructor establishes *)

Lemma load_instances_spec (model_files : list string)
    (acc loaded : list Instance) :
  load_instances model_files acc = Ok loaded
  ↔ ∃ new, loaded = acc ++ new
           ∧ Forall2 (λ f i, load_instance f = Ok i) model_files new.
Proof.
  revert acc. induction model_files as [|f rest IH]; intros acc; simpl.
  - split.
    + intros [= <-]. exists []. by rewrite app_nil_r.
    + intros (new & -> & Hall). apply Forall2_nil_inv_l in Hall as ->.
      by rewrite app_nil_r.
  - destruct (load_instance f) as [i|e] eqn:Hf.
    + rewrite IH. split.
      * intros (new & -> & Hall). exists (i :: new).
        rewrite <- app_assoc. split; [done|]. by constructor.
      * intros (new & -> & Hall).
        apply Forall2_cons_inv_l in Hall as (i' & new' & Hi & Hall & ->).
        rewrite Hf in Hi. injection Hi as <-.
        exists new'. by rewrite <- app_assoc.
    + split; [done|]. intros (new & -> & Hall).
      apply Forall2_cons_inv_l in Hall as (i' & new' & Hi & _ & _).
      by rewrite Hf in Hi.
Qed.

Lemma load_instances_fails (pre post : list string) (f : string)
    (acc done_ : list Instance) (e : exn) :
  Forall2 (λ f i, load_instance f = Ok i) pre done_ →
  load_instance f = Raise e →
  load_instances (pre ++ f :: post) acc = Raise e.
Proof.
  intros Hpre Hf. revert acc.
  induction Hpre as [|g i pre done_ Hg _ IH]; intros acc; simpl.
  - by rewrite Hf.
  - rewrite Hg. apply IH.
Qed.

Lemma sanity_check_ext (l1 l2 : list Instance) :
  map (λ i, eval_filters (train (opts i))) l1
  = map (λ i, eval_filters (train (opts i))) l2 →
  map n_trg_vocab l1 = map n_trg_vocab l2 →
  sanity_check l1 = sanity_check l2.
Proof. unfold sanity_check. by intros -> ->. Qed.

Lemma setup_filter_world (disable : bool) (loaded : list Instance) (w : World) :
  files (setup_filter disable loaded w).2 = files w
  ∧ ticks (setup_filter disable loaded w).2 = ticks w.
Proof.
  unfold setup_filter, mbind, M_bind, bind.
  destruct loaded as [|i rest]; simpl; [done|].
  by destruct (disable || _).
Qed.

Lemma resolve_splits_inv (sp so : option string) (loaded ins : list Instance)
    (s : SplitsAttr) (w w' : World) :
  resolve_splits sp so loaded w = (Ok (s, ins), w') →
  files w' = files w
  ∧ map (λ i, eval_filters (train (opts i))) ins
    = map (λ i, eval_filters (train (opts i))) loaded
  ∧ map n_trg_vocab ins = map n_trg_vocab loaded
  ∧ tail ins = tail loaded
  ∧ match s with
    | Names names => names ≠ []
    | Raw o => o = sp ∧ truthy sp = false ∧ truthy so = false
    end.
Proof.
  unfold resolve_splits. destruct (truthy sp) eqn:Hsp.
  - unfold mbind, M_bind, bind, logger_info. simpl. intros [= <- <- <-].
    simpl. repeat split; try done. apply str_split_nonempty.
  - destruct (truthy so) eqn:Hso.
    + unfold mbind, M_bind, bind, logger_info. simpl.
      set (w1 := mkWorld _ _ _).
      pose proof (parse_sources_files
                    (str_split "," (default "" so)) ∅ w1) as [Hf _].
      destruct (parse_sources _ ∅ w1) as [[m|e] w2]; [|done].
      destruct loaded as [|i rest]; simpl; [done|].
      intros [= <- <- <-]. simpl in *. by rewrite Hf.
    + intros [= <- <- <-]. done.
Qed.

Lemma resolve_splits_instances (sp so : option string)
    (loaded ins : list Instance) (s : SplitsAttr) (w w' : World) :
  resolve_splits sp so loaded w = (Ok (s, ins), w') →
  if truthy sp || negb (truthy so) then ins = loaded
  else ∃ i rest m,
         loaded = i :: rest
         ∧ ins = with_data i (<["new_set" := m]> (data (opts i))) :: rest.
Proof.
  unfold resolve_splits. destruct (truthy sp) eqn:Hsp; simpl.
  - unfold mbind, M_bind, bind, logger_info. simpl. by intros [= _ <- _].
  - destruct (truthy so) eqn:Hso; simpl; [|by intros [= _ <- _]].
    unfold mbind, M_bind, bind, logger_info. simpl.
    destruct (parse_sources _ ∅ _) as [[m|e] w2]; [|done].
    destruct loaded as [|i rest]; simpl; [done|].
    intros [= _ <- _]. by exists i, rest, m.
Qed.

(** X4. A constructed translator has one instance per checkpoint, each the
    result of loading its checkpoint, in order: with explicit splits, or
    with no source specification, the instances are exactly the loaded
    ones, and otherwise the first is the loaded one with an entry under
    [new_set] put into its data options and nothing else changed, the
    others being exactly the loaded ones; the ensemble is not empty and
    still passes the sanity check; the split list is a non-empty list of
    names, or, when neither splits nor source were given, the raw
    argument; and construction touches no file. *)
Theorem X4_constructed (kw : Kwargs) (w w' : World) (t : Translator) :
  init kw w = (Ok t, w') →
  (∃ loaded,
     Forall2 (λ f i, load_instance f = Ok i) (kw_models kw) loaded
     ∧ tail (instances t) = tail loaded
     ∧ map n_trg_vocab (instances t) = map n_trg_vocab loaded
     ∧ if truthy (kw_splits kw) || negb (truthy (kw_source kw))
       then instances t = loaded
       else ∃ i rest m,
              loaded = i :: rest
              ∧ instances t
                = with_data i (<["new_set" := m]> (data (opts i))) :: rest)
  ∧ length (instances t) = length (kw_models kw)
  ∧ n_models t = length (kw_models kw)
  ∧ instances t ≠ []
  ∧ sanity_check (instances t) = Ok ()
  ∧ match splits t with
    | Names names => names ≠ []
    | Raw o => o = kw_splits kw ∧ truthy (kw_splits kw) = false
               ∧ truthy (kw_source kw) = false
    end
  ∧ files w' = files w.
Proof.
  unfold init, mbind, M_bind, bind, logger_info. simpl.
  destruct (load_instances (kw_models kw) []) as [loaded|e] eqn:Hload;
    simpl; [|done].
  destruct (sanity_check loaded) as [[]|e] eqn:Hsc; simpl; [|done].
  set (w1 := mkWorld _ _ _).
  pose proof (setup_filter_world (kw_disable_filters kw) loaded w1) as [Hfw _].
  destruct (setup_filter _ loaded w1) as [[f|e] w2]; [|done].
  destruct (resolve_splits _ _ loaded w2) as [[[sp ins]|e] w3] eqn:Hr; [|done].
  simpl. intros [= <- <-]. simpl.
  pose proof (resolve_splits_instances _ _ _ _ _ _ _ Hr) as Hins.
  apply resolve_splits_inv in Hr as (Hf & Hef & Hn & Htl & Hshape).
  apply load_instances_spec in Hload as (new & -> & Hall). simpl in *.
  assert (Hlen : length ins = length (kw_models kw)).
  { rewrite <- (length_map n_trg_vocab ins), Hn, length_map.
    symmetry. by eapply Forall2_length. }
  split; [by exists new|]. split; [done|]. split; [done|].
  split.
  { apply sanity_check_nonempty in Hsc. intros ->.
    assert (length new = 0%nat) by (by rewrite <- (length_map n_trg_vocab), <- Hn).
    by destruct new. }
  split; [by rewrite (sanity_check_ext ins new)|].
  split; [done|]. by rewrite Hf, Hfw.
Qed.

(** X5. When neither a splits string nor a source specification is given,
    the constructor still succeeds and leaves the instances as loaded; a
    call then raises [TypeError] if the splits argument was [None], and
    returns at once, writing nothing, if it was the empty string. *)
Theorem X5_nothing_to_translate (kw : Kwargs) (w : World)
    (loaded : list Instance) :
  load_instances (kw_models kw) [] = Ok loaded →
  sanity_check loaded = Ok () →
  truthy (kw_splits kw) = false → truthy (kw_source kw) = false →
  ∃ (t : Translator) (w' : World),
    init kw w = (Ok t, w')
    ∧ instances t = loaded
    ∧ (kw_splits kw = None → call t w' = (Raise TypeError, w'))
    ∧ (kw_splits kw = Some "" → call t w' = (Ok t, w')).
Proof.
  intros Hload Hsc Hsp Hso.
  pose proof (sanity_check_nonempty loaded Hsc) as Hl.
  destruct loaded as [|i rest]; [done|].
  unfold init, mbind, M_bind, bind, logger_info. simpl.
  rewrite Hload. simpl. rewrite Hsc. simpl.
  unfold setup_filter, resolve_splits, mbind, M_bind, bind. simpl.
  rewrite Hsp, Hso.
  destruct (kw_disable_filters kw || _); simpl;
    (eexists _, _; split; [reflexivity|]; split; [reflexivity|]);
    unfold call; simpl; split; intros ->; reflexivity.
Qed.

(** X6. The checkpoints are loaded in the order given and the first one
    that cannot be loaded decides the outcome: the constructor raises its
    exception, having logged the opening message only, and touches no
    file. *)
Theorem X6_load_failure (kw : Kwargs) (w : World) (pre post : list string)
    (f : string) (done_ : list Instance) (e : exn) :
  kw_models kw = pre ++ f :: post →
  Forall2 (λ f i, load_instance f = Ok i) pre done_ →
  load_instance f = Raise e →
  init kw w
  = (Raise e,
     mkWorld (files w)
       (log w ++ [LogModels (length (kw_models kw)) (kw_beam_size kw)
                    (kw_batch_size kw) (kw_max_len kw)])
       (ticks w)).
Proof.
  intros Hm Hpre Hf.
  assert (Hl : load_instances (kw_models kw) [] = Raise e)
    by (rewrite Hm; by eapply load_instances_fails).
  unfold init, mbind, M_bind, bind, logger_info. simpl. by rewrite Hl.
Qed.


(** ** What the loop keeps *)

Lemma translate_ok_inv (self self' : Translator) (arg : list Instance)
    (split : string) (w w' : World) (hyps : list string) :
  translate self arg split w = (Ok (hyps, self'), w') →
  ∃ i0 i1 d l hs,
    index0 (instances self) = Ok i0
    ∧ load_data i0 split = Ok i1
    ∧ getitem (datasets i1) split = Ok d
    ∧ get_iterator d (batch_size self) true = Ok l
    ∧ beam_search i1 l (trg_vocab i1) (beam_size self) (max_len self)
        (avoid_double self) (avoid_unk self) = Ok hs
    ∧ hyps = filter self hs
    ∧ self' = with_primary self i1
    ∧ files w' = files w
    ∧ ticks w' = S (S (ticks w)).
Proof.
  unfold translate, mbind, M_bind, bind.
  destruct (index0 (instances self)) as [i0|e] eqn:Hi0; simpl; [|done].
  destruct (load_data i0 split) as [i|e] eqn:Hi; simpl; [|done].
  destruct (getitem (datasets i) split) as [d|e] eqn:Hd; simpl; [|done].
  destruct (get_iterator d (batch_size self) true) as [l|e] eqn:Hl;
    simpl; [|done].
  destruct (beam_search i l (trg_vocab i) _ _ _ _) as [hs|e] eqn:Hs;
    simpl; [|done].
  destruct (throughput _ _) as [rate|e]; simpl; [|done].
  intros [= <- <- <-]. simpl.
  exists i0, i, d, l, hs. repeat split; done.
Qed.

Lemma write_lines_log_ticks (path : string) (hyps : list string) (w : World) :
  log (write_lines path hyps w).2 = log w
  ∧ ticks (write_lines path hyps w).2 = ticks w.
Proof.
  revert w. induction hyps as [|line rest IH]; intros w; [done|].
  simpl. unfold mbind, M_bind, bind, write.
  destruct (files w !! path) as [f|]; [|done].
  destruct (str_forallb _ _); [|done].
  match goal with |- context [write_lines path rest ?w0] =>
    destruct (IH w0) as [-> ->] end. done.
Qed.

Lemma dump_log_ticks (self : Translator) (hyps : list string)
    (split : string) (w : World) :
  log (dump self hyps split w).2 = log w
  ∧ ticks (dump self hyps split w).2 = ticks w.
Proof.
  unfold dump, mbind, M_bind, bind, open_w.
  destruct (can_open_w _); simpl; [|done].
  match goal with |- context [write_lines ?p hyps ?w0] =>
    destruct (write_lines_log_ticks p hyps w0) as [-> ->] end. done.
Qed.

Lemma same_settings_refl (t : Translator) : same_settings t t.
Proof. by repeat split. Qed.

Lemma same_settings_primary (t t' : Translator) (i : Instance) :
  same_settings t t' → same_settings t (with_primary t' i).
Proof. unfold same_settings. simpl. tauto. Qed.

Lemma call_loop_keeps (self self' : Translator) (names : list string)
    (w w' : World) :
  call_loop self names w = (Ok self', w') →
  same_settings self self'
  ∧ length (instances self') = length (instances self)
  ∧ ticks w' = (ticks w + 2 * length names)%nat.
Proof.
  revert self w. induction names as [|s rest IH]; intros self w.
  - simpl. intros [= <- <-]. split; [apply same_settings_refl|]. split; [done|].
    lia.
  - simpl. unfold mbind, M_bind, bind.
    destruct (translate self (instances self) s w)
      as [[[hyps self1]|e] w1] eqn:Htr; [|done].
    apply translate_ok_inv in Htr
      as (i0 & i1 & _ & _ & _ & Hi0 & _ & _ & _ & _ & _ & -> & _ & Ht).
    pose proof (dump_log_ticks (with_primary self i1) hyps s w1) as [_ Hdt].
    destruct (dump (with_primary self i1) hyps s w1) as [[[]|e] w2]; [|done].
    simpl in Hdt. intros Hloop. apply IH in Hloop as (Hsame & Hlen & Hticks).
    split; [|split].
    + unfold same_settings in *. simpl in *. tauto.
    + rewrite Hlen. simpl. destruct (instances self); [done|]. done.
    + rewrite Hticks, Hdt, Ht. simpl. lia.
Qed.

(** X7. A call that ends normally leaves the run settings, the
    post-processing transform, the split list and the non-primary instances
    as they were and keeps the size of the ensemble: only the primary
    instance can change; and it has read the clock exactly twice per
    split. *)
Theorem X7_call_keeps (self self' : Translator) (names : list string)
    (w w' : World) :
  splits self = Names names →
  call self w = (Ok self', w') →
  same_settings self self'
  ∧ length (instances self') = length (instances self)
  ∧ ticks w' = (ticks w + 2 * length names)%nat.
Proof.
  intros Hsp. unfold call. rewrite Hsp. apply call_loop_keeps.
Qed.

(** ** Writing twice, and writing that fails *)

(** X8. The last [dump] for a split decides the file: dumping one list and
    then another for the same split leaves the world that dumping the
    second list alone gives, whether or not the first dump went through. *)
Theorem X8_last_dump_wins (self : Translator) (hyps1 hyps2 : list string)
    (split : string) (w : World) :
  dump self hyps2 split (dump self hyps1 split w).2
  = dump self hyps2 split w.
Proof.
  pose proof (dump_log_ticks self hyps1 split w) as [Hlog Hticks].
  revert Hlog Hticks. unfold dump, mbind, M_bind, bind, open_w.
  set (p := dump_output self split).
  destruct (can_open_w p) eqn:Hopen; simpl; [|done].
  set (w0 := mkWorld _ _ _).
  pose proof (write_lines_frame p hyps1 w0) as Hframe.
  destruct (write_lines p hyps1 w0) as [r w1]. simpl in *.
  intros -> ->.
  replace (<[p := mkFile preferred_encoding ""]> (files w1))
    with (<[p := mkFile preferred_encoding ""]> (files w)); [done|].
  rewrite <- (insert_delete_eq (files w1)), Hframe.
  subst w0. simpl. by rewrite delete_insert_eq, insert_delete_eq.
Qed.

Lemma write_lines_partial (path : string) (pre post : list string)
    (bad : string) (w : World) (enc : Encoding) (txt : string) :
  files w !! path = Some (mkFile enc txt) →
  Forall (λ line, str_forallb (encodable enc) line = true) pre →
  str_forallb (encodable enc) bad = false →
  write_lines path (pre ++ bad :: post) w
  = (Raise UnicodeEncodeError,
     mkWorld (<[path := mkFile enc (txt +:+ spec_file_text pre)]> (files w))
       (log w) (ticks w)).
Proof.
  revert w txt. induction pre as [|line rest IH]; intros w txt Hf Hall Hbad.
  - simpl. unfold mbind, M_bind, bind, write. rewrite Hf. simpl.
    rewrite str_forallb_app, Hbad. simpl.
    rewrite str_app_nil_r, insert_id by done. by destruct w.
  - apply Forall_cons in Hall as [Hl Hrest].
    simpl. unfold mbind, M_bind, bind, write. rewrite Hf. simpl.
    rewrite encodable_line by done.
    erewrite IH; [|simpl; apply lookup_insert_eq|done|done]. simpl.
    rewrite insert_insert_eq. by rewrite !str_app_assoc.
Qed.

(** X9. A hypothesis with a character the file's encoding cannot represent
    stops [dump] with [UnicodeEncodeError] and leaves a truncated file: the
    lines before that hypothesis, and nothing after. *)
Theorem X9_truncated_file (self : Translator) (pre post : list string)
    (bad : string) (split : string) (w : World) :
  can_open_w (dump_output self split) = true →
  Forall (λ line, str_forallb (encodable preferred_encoding) line = true)
    pre →
  str_forallb (encodable preferred_encoding) bad = false →
  dump self (pre ++ bad :: post) split w
  = (Raise UnicodeEncodeError,
     mkWorld (<[dump_output self split
                := mkFile preferred_encoding (spec_file_text pre)]> (files w))
       (log w) (ticks w)).
Proof.
  intros Hopen Hpre Hbad.
  unfold dump, mbind, M_bind, bind, open_w. rewrite Hopen.
  erewrite write_lines_partial; [|simpl; apply lookup_insert_eq|done|done].
  simpl. by rewrite insert_insert_eq.
Qed.

(** X10. A [dump] that raises ends the run like a translation that raises:
    when the splits before some split went through and the file of that
    split cannot be written, the call raises that exception in the world
    [dump] left, with nothing logged and no clock read since the translation
    of that split, whatever splits follow. *)
Theorem X10_dump_failure_aborts (self self1 self2 : Translator)
    (pre post : list string) (s : string) (w w1 w2 w3 : World)
    (hyps : list string) (e : exn) :
  splits self = Names (pre ++ s :: post) →
  call_loop self pre w = (Ok self1, w1) →
  translate self1 (instances self1) s w1 = (Ok (hyps, self2), w2) →
  dump self2 hyps s w2 = (Raise e, w3) →
  call self w = (Raise e, w3) ∧ log w3 = log w2 ∧ ticks w3 = ticks w2.
Proof.
  intros Hsp Hpre Htr Hd.
  unfold call. rewrite Hsp, call_loop_app, Hpre. simpl.
  unfold mbind, M_bind, bind. rewrite Htr, Hd. split; [done|].
  pose proof (dump_log_ticks self2 hyps s w2) as Hlt.
  by rewrite Hd in Hlt.
Qed.

(** ** One split, from search to file *)

(** X11. For a translator with a single split, when loading, iteration,
    search and the throughput computation succeed, the path can be opened
    and the filtered hypotheses can be encoded, a call writes exactly the
    filtered hypotheses of the search, one per line, to the path derived
    for that split, logs the start and the throughput, and leaves the
    primary instance as loading left it. *)
Theorem X11_single_split (self : Translator) (s : string) (w : World)
    (i0 i1 : Instance) (d : Dataset) (l : Loader) (hyps : list string)
    (rate : Z) :
  splits self = Names [s] →
  index0 (instances self) = Ok i0 →
  load_data i0 s = Ok i1 →
  getitem (datasets i1) s = Ok d →
  get_iterator d (batch_size self) true = Ok l →
  beam_search i1 l (trg_vocab i1) (beam_size self) (max_len self)
    (avoid_double self) (avoid_unk self) = Ok hyps →
  throughput (length hyps)
    (PrimFloat.sub (time_at (S (ticks w))) (time_at (ticks w))) = Ok rate →
  can_open_w (dump_output self s) = true →
  Forall (λ line, str_forallb (encodable preferred_encoding) line = true)
    (filter self hyps) →
  call self w
  = (Ok (with_primary self i1),
     mkWorld
       (<[dump_output self s
          := mkFile preferred_encoding (spec_file_text (filter self hyps))]>
          (files w))
       (log w ++ [LogStarting;
                  LogTook (PrimFloat.sub (time_at (S (ticks w)))
                             (time_at (ticks w))) rate])
       (S (S (ticks w)))).
Proof.
  intros Hsp Hi0 Hi1 Hd Hl Hs Hrate Hopen Henc.
  unfold call. rewrite Hsp. simpl. unfold mbind, M_bind, bind.
  unfold translate, mbind, M_bind, bind.
  rewrite Hi0. simpl. rewrite Hi1. simpl. rewrite Hd. simpl.
  rewrite Hl. simpl. rewrite Hs. simpl. rewrite Hrate. simpl.
  unfold dump, mbind, M_bind, bind, open_w.
  change (dump_output (with_primary self i1) s) with (dump_output self s).
  rewrite Hopen.
  erewrite write_lines_ok; [|simpl; apply lookup_insert_eq|done].
  simpl. rewrite insert_insert_eq, <- app_assoc. done.
Qed.


(** ** What a translation logs *)

(** X12. The throughput message is logged exactly when [translate]
    returns: a translation that raises has logged nothing, or the start
    message only, and one that has logged nothing has not read the clock. *)
Theorem X12_log_of_translate (self : Translator) (arg : list Instance)
    (split : string) (w : World) :
  (is_ok (translate self arg split w).1 = true
   ↔ ∃ up rate,
       log (translate self arg split w).2
       = log w ++ [LogStarting; LogTook up rate])
  ∧ (is_ok (translate self arg split w).1 = false →
     log (translate self arg split w).2 = log w
     ∨ log (translate self arg split w).2 = log w ++ [LogStarting])
  ∧ (log (translate self arg split w).2 = log w →
     ticks (translate self arg split w).2 = ticks w).
Proof.
  assert (Hnil : ∀ (l : list LogEvent) a k, l ++ a :: k = l → False).
  { intros l a k Hl. apply (f_equal length) in Hl.
    rewrite length_app in Hl. simpl in Hl. lia. }
  assert (Hone : ∀ (l : list LogEvent) a b c, l ++ [a] = l ++ [b; c] → False).
  { intros l a b c Hl. by apply app_inv_head in Hl. }
  assert (Hsame : ∀ (l : list LogEvent) up rate,
             l = l ++ [LogStarting; LogTook up rate] → False).
  { intros l up rate Hl. symmetry in Hl. by apply Hnil in Hl. }
  unfold translate, mbind, M_bind, bind.
  destruct (index0 (instances self)) as [i0|e]; simpl;
    [|split; [split; [done|intros (? & ? & Hl); by apply Hsame in Hl]|auto]].
  destruct (load_data i0 split) as [i|e]; simpl;
    [|split; [split; [done|intros (? & ? & Hl); by apply Hsame in Hl]|auto]].
  destruct (getitem (datasets i) split) as [d|e]; simpl;
    [|split; [split; [done|intros (? & ? & Hl); by apply Hsame in Hl]|auto]].
  destruct (get_iterator d (batch_size self) true) as [l|e]; simpl;
    [|split; [split; [done|intros (? & ? & Hl); by apply Hsame in Hl]|auto]].
  destruct (beam_search i l (trg_vocab i) _ _ _ _) as [hyps|e]; simpl.
  - destruct (throughput _ _) as [rate|e]; simpl.
    + rewrite <- app_assoc. simpl. split; [split; [eauto|done]|].
      split; [done|]. intros Hl. by apply Hnil in Hl.
    + split; [split; [done|intros (? & ? & Hl); by apply Hone in Hl]|].
      split; [auto|]. intros Hl. by apply Hnil in Hl.
  - split; [split; [done|intros (? & ? & Hl); by apply Hone in Hl]|].
    split; [auto|]. intros Hl. by apply Hnil in Hl.
Qed.

(** ** Paths that coincide *)

(** X13. The path is not a one-to-one function of base path and split
    taken together: for a split other than [new], the file of that split
    under some base path is also the file of the split [new] under the
    base path extended by a dot and the split name. *)
Theorem X13_new_collides (t1 t2 : Translator) (split : string) :
  split ≠ "new" →
  output t2 = output t1 +:+ "." +:+ split →
  beam_size t1 = beam_size t2 →
  avoid_double t1 = avoid_double t2 →
  avoid_unk t1 = avoid_unk t2 →
  dump_output t2 "new" = dump_output t1 split.
Proof.
  intros Hne Ho Hb Hd Hu. unfold dump_output, dump_suffix.
  rewrite Ho, Hb, Hd, Hu. simpl.
  destruct (String.eqb_spec split "new") as [->|_]; [done|].
  by rewrite !str_app_assoc.
Qed.

(** ** Which transform is chosen *)

Lemma parse_sources_log (pieces : list string) (m : gmap string Path)
    (w : World) :
  log w `prefix_of` log (parse_sources pieces m w).2.
Proof.
  revert m w. induction pieces as [|piece rest IH]; intros m w; [done|].
  simpl. unfold mbind, M_bind, bind.
  destruct (str_split1_shape ":" piece) as [[_ ->]|(k & p & ->)]; [done|].
  simpl. unfold getitem. rewrite lookup_insert_eq. simpl.
  etrans; [|apply IH]. simpl. by apply prefix_app_r.
Qed.

Lemma resolve_splits_log (sp so : option string) (loaded : list Instance)
    (w : World) :
  log w `prefix_of` log (resolve_splits sp so loaded w).2.
Proof.
  unfold resolve_splits. destruct (truthy sp).
  - simpl. by apply prefix_app_r.
  - destruct (truthy so); [|done].
    unfold mbind, M_bind, bind, logger_info. simpl.
    set (w1 := mkWorld _ _ _).
    pose proof (parse_sources_log (str_split "," (default "" so)) ∅ w1) as Hp.
    assert (Hw : log w `prefix_of` log w1) by (by apply prefix_app_r).
    destruct (parse_sources _ ∅ w1) as [[m|e] w2]; simpl in *;
      [|by etrans].
    destruct (register_new_set loaded m); simpl; by etrans.
Qed.

(** X14. All instances of a constructed translator share one
    [eval_filters] value; when filtering is disabled or that value is
    empty, the translator's transform returns its argument, and otherwise
    it is the filter chain built from that value; the log says which. *)
Theorem X14_filter_choice (kw : Kwargs) (w w' : World) (t : Translator) :
  init kw w = (Ok t, w') →
  ∃ ef : string,
    (∀ i, i ∈ instances t → eval_filters (train (opts i)) = ef)
    ∧ if kw_disable_filters kw || String.eqb ef ""
      then (∀ hyps, filter t hyps = hyps) ∧ LogFiltersDisabled ∈ log w'
      else filter t = FilterChain ef ∧ LogFiltersEnabled ∈ log w'.
Proof.
  unfold init, mbind, M_bind, bind, logger_info. simpl.
  destruct (load_instances (kw_models kw) []) as [loaded|e]; simpl; [|done].
  destruct (sanity_check loaded) as [[]|e] eqn:Hsc; simpl; [|done].
  pose proof (sanity_check_nonempty loaded Hsc) as Hne.
  apply sanity_check_ok in Hsc as [Hagree _]; [|done].
  destruct loaded as [|i0 rest]; [done|].
  unfold setup_filter, mbind, M_bind, bind, logger_info. simpl.
  rewrite negb_involutive.
  set (ef := eval_filters (train (opts i0))) in *.
  assert (Hall : ∀ ins, map (λ i, eval_filters (train (opts i))) ins
                        = map (λ i, eval_filters (train (opts i))) (i0 :: rest) →
                 ∀ i, i ∈ ins → eval_filters (train (opts i)) = ef).
  { intros ins Hmap i Hi.
    assert (eval_filters (train (opts i))
            ∈ map (λ i, eval_filters (train (opts i))) (i0 :: rest)) as Hin
      by (rewrite <- Hmap; apply list_elem_of_fmap; eauto).
    apply list_elem_of_fmap in Hin as (j & -> & Hj).
    apply Hagree; [done|left]. }
  destruct (kw_disable_filters kw || (ef =? "")%string) eqn:Hcond; simpl.
  - match goal with |- context [resolve_splits ?a ?b ?c ?d] =>
      pose proof (resolve_splits_log a b c d) as Hlog;
      destruct (resolve_splits a b c d) as [[[sp ins]|e] w3] eqn:Hr end;
      [|done].
    simpl. intros [= <- <-]. simpl.
    apply resolve_splits_inv in Hr as (_ & Hef & _).
    exists ef. split; [by apply Hall|]. rewrite Hcond. split; [done|].
    simpl in Hlog. destruct Hlog as [k ->].
    rewrite !elem_of_app, !elem_of_cons. auto.
  - match goal with |- context [resolve_splits ?a ?b ?c ?d] =>
      pose proof (resolve_splits_log a b c d) as Hlog;
      destruct (resolve_splits a b c d) as [[[sp ins]|e] w3] eqn:Hr end;
      [|done].
    simpl. intros [= <- <-]. simpl.
    apply resolve_splits_inv in Hr as (_ & Hef & _).
    exists ef. split; [by apply Hall|]. rewrite Hcond. split; [done|].
    simpl in Hlog. destruct Hlog as [k ->].
    rewrite !elem_of_app, !elem_of_cons. auto.
Qed.


End Further.


(** * The properties on concrete runs *)

Lemma C1_dump_path_witness :
  dump_output (Demo.translator 4 false false ["test"]) "test"
  = "out/run.test.beam4"
  ∧ is_Some (files (@dump _ Demo.posix (Demo.translator 4 false false ["test"])
                      ["a"; "b"] "test" Demo.world0).2
             !! "out/run.test.beam4").
Proof.
  pose proof (@C1_dump_path _ Demo.posix
                (Demo.translator 4 false false ["test"]) "test") as [Hp Hd].
  split; [exact Hp|].
  destruct (Hd ["a"; "b"] Demo.world0) as [_ Hsome].
  apply Hsome. reflexivity.
Defined.

Lemma C2_sanity_check_witness :
  ∃ msg,
    (@init _ Demo.posix
       (Demo.kwargs ["m1"; "big2"] 1 true true None (Some "src:foo.txt"))
       Demo.world0).1
    = Raise (AssertionError msg).
Proof.
  destruct (@C2_sanity_check _ Demo.posix) as [_ Hrej].
  destruct (Hrej (Demo.kwargs ["m1"; "big2"] 1 true true None
                    (Some "src:foo.txt")) Demo.world0
              [Demo.instance_of "m1"; Demo.instance_of "big2"])
    as [Hmsg _].
  - reflexivity.
  - vm_compute. discriminate.
  - exact Hmsg.
Defined.

Lemma C3_split_resolution_witness :
  (@resolve_splits Demo.types None (Some "src:in.txt")
     [Demo.instance_of "m1"] Demo.world0).1
  = Ok (Names ["new"],
        [with_data (Demo.instance_of "m1")
           (<["new_set" := {["src" := mkPath "in.txt"]}]>
              (data (opts (Demo.instance_of "m1"))))]).
Proof.
  destruct (@C3_split_resolution Demo.types) as (_ & _ & Hsrc).
  apply (Hsrc [("src", "in.txt")] None (Demo.instance_of "m1") []
           Demo.world0).
  - reflexivity.
  - discriminate.
  - repeat constructor.
Defined.

Lemma C4_path_function_witness :
  dump_output (Demo.translator 4 false false []) "test"
  ≠ dump_output (Demo.translator 4 false false []) "dev"
  ∧ dump_output (Demo.translator 4 false false []) "test"
    ≠ dump_output (Demo.translator 40 false false []) "test"
  ∧ dump_output (Demo.translator 4 false false []) "test"
    ≠ dump_output (Demo.translator 4 true false []) "test"
  ∧ dump_output (Demo.translator 4 false false []) "test"
    ≠ dump_output (Demo.translator 4 false true []) "test".
Proof.
  destruct (@C4_path_function Demo.types) as (_ & Hsplit & Hbeam & Hdbl & Hunk).
  repeat split.
  - apply Hsplit; [reflexivity..|discriminate].
  - apply Hbeam; [reflexivity|discriminate|reflexivity..].
  - apply Hdbl; [reflexivity..|discriminate|reflexivity].
  - apply Hunk; [reflexivity..|discriminate].
Defined.

Lemma C5_primary_only_witness :
  result_map fst
    (@translate _ Demo.posix (Demo.translator 4 false false ["test"])
       [] "test" Demo.world0).1
  = result_map fst
      (@translate _ Demo.posix
         (with_primary
            (mkTranslator _ ["m1"; "m2"] 4 32 100 false false true "other"
               (Names ["dev"]) (Some "src:x") 2
               [Demo.instance_of "m1"; Demo.instance_of "big2"] (λ s, s))
            (Demo.instance_of "m1"))
         [Demo.instance_of "big2"] "test" Demo.world0).1.
Proof.
  refine (proj1 (@C5_primary_only _ Demo.posix _ _ _ _ _ _ _ _ _ _ _ _ _));
    reflexivity.
Defined.


Lemma C7_total_or_nothing_witness :
  (@call _ Demo.posix (Demo.translator 4 false false ["test"; "dev"; "test"])
     Demo.world0).1
  = Raise (Foreign "unknown split")
  ∧ files (@call _ Demo.posix
             (Demo.translator 4 false false ["test"; "dev"; "test"])
             Demo.world0).2
    = {["out/run.test.beam4" := mkFile UTF8 ("test.src" +:+ nl)]}
  ∧ @call _ Demo.broken_search (Demo.translator 4 false false ["test"])
      Demo.world0
    = (Raise (Foreign "search failed"), mkWorld ∅ [LogStarting] 1).
Proof.
  destruct (@C7_total_or_nothing _ Demo.posix
              (Demo.translator 4 false false ["test"; "dev"; "test"]))
    as (_ & _ & _ & Hload & _).
  destruct (@C7_total_or_nothing _ Demo.broken_search
              (Demo.translator 4 false false ["test"]))
    as (_ & _ & _ & _ & _ & _ & Hsearch).
  split; [|split].
  - rewrite (Hload ["test"] ["test"] "dev" Demo.world0
               (Demo.looped Demo.posix
                  (Demo.translator 4 false false ["test"; "dev"; "test"])
                  ["test"]).2
               (Demo.looped Demo.posix
                  (Demo.translator 4 false false ["test"; "dev"; "test"])
                  ["test"]).1
               (Demo.with_datasets (Demo.instance_of "m1")
                  {["test" := ["test.src"]]})
               (Foreign "unknown split"));
      [reflexivity|reflexivity|vm_compute; reflexivity
      |vm_compute; reflexivity|vm_compute; reflexivity].
  - rewrite (Hload ["test"] ["test"] "dev" Demo.world0
               (Demo.looped Demo.posix
                  (Demo.translator 4 false false ["test"; "dev"; "test"])
                  ["test"]).2
               (Demo.looped Demo.posix
                  (Demo.translator 4 false false ["test"; "dev"; "test"])
                  ["test"]).1
               (Demo.with_datasets (Demo.instance_of "m1")
                  {["test" := ["test.src"]]})
               (Foreign "unknown split"));
      [vm_compute; reflexivity|reflexivity|vm_compute; reflexivity
      |vm_compute; reflexivity|vm_compute; reflexivity].
  - apply (Hsearch [] [] "test" Demo.world0 Demo.world0
             (Demo.translator 4 false false ["test"])
             (Demo.instance_of "m1")
             (Demo.with_datasets (Demo.instance_of "m1")
                {["test" := ["test.src"]]})
             ["test.src"] [["test.src"]] (Foreign "search failed"));
      solve [reflexivity | vm_compute; reflexivity].
Defined.

Lemma C8_dump_file_witness :
  (@dump _ Demo.posix (Demo.translator 4 false false ["test"])
     ["a b"; "c"] "test" Demo.world0).2
  = mkWorld {["out/run.test.beam4" := mkFile UTF8 ("a b" +:+ nl +:+ "c" +:+ nl)]}
      [] 0.
Proof.
  destruct (@C8_dump_file _ Demo.posix (Demo.translator 4 false false ["test"])
              ["a b"; "c"] "test" Demo.world0) as [Hd _].
  - reflexivity.
  - repeat constructor.
  - rewrite Hd. reflexivity.
Defined.

Lemma C9_throughput_witness :
  ∃ rate : Z,
    log (@translate _ Demo.posix (Demo.translator 4 false false ["test"])
           [] "test" Demo.world0).2
    = [LogStarting; LogTook 2%float rate].
Proof.
  destruct (@C9_throughput _ Demo.posix
              (Demo.translator 4 false false ["test"]) [] "test" Demo.world0
              (Demo.instance_of "m1")
              (Demo.with_datasets (Demo.instance_of "m1")
                 {["test" := ["test.src"]]})
              ["test.src"] [["test.src"]] ["test.src"])
    as [_ Hrate]; try (vm_compute; reflexivity).
  destruct (Hrate eq_refl (finite_value false 4503599627370496 (-53)))
    as (rate & _ & Hlog & _).
  - vm_compute. reflexivity.
  - exists rate. exact Hlog.
Defined.

Lemma C10_splits_precedence_witness :
  ∃ t,
    (@init _ Demo.posix
       (Demo.kwargs ["m1"] 4 false false (Some "test,dev") (Some "src:foo.txt"))
       Demo.world0).1 = Ok t
    ∧ splits t = Names ["test"; "dev"]
    ∧ instances t = [Demo.instance_of "m1"].
Proof.
  destruct (@C10_splits_precedence _ Demo.posix
              (Demo.kwargs ["m1"] 4 false false (Some "test,dev")
                 (Some "src:foo.txt"))
              Demo.world0 "test,dev" [Demo.instance_of "m1"])
    as (t & Ht & Hs & Hi & _).
  - reflexivity.
  - discriminate.
  - reflexivity.
  - vm_compute. reflexivity.
  - exists t. split; [exact Ht|]. split; [exact Hs|exact Hi].
Defined.

(** C8, as stated, fails: on a platform whose preferred encoding is Latin-1
    the file is not written in UTF-8, and a hypothesis that contains a
    newline character gives a file with more lines than hypotheses. *)
Lemma C8_counterexample :
  ∃ f : File,
    files (@dump _ (Demo.external Demo.ticking Latin1)
             (Demo.translator 4 false false ["test"])
             ["x" +:+ nl +:+ "y"] "test" Demo.world0).2
    !! "out/run.test.beam4" = Some f
    ∧ encoding f ≠ UTF8
    ∧ str_count newline (text f) = 2%nat
    ∧ length ["x" +:+ nl +:+ "y"] = 1%nat.
Proof.
  exists (mkFile Latin1 ("x" +:+ nl +:+ "y" +:+ nl)).
  split; [vm_compute; reflexivity|]. split; [discriminate|]. split; reflexivity.
Qed.

(** C9, as stated, fails: when the two clock readings are equal the search
    has returned its hypotheses, yet nothing guards the division,
    [translate] raises [ZeroDivisionError] and no throughput is logged. *)
Lemma C9_counterexample :
  (@translate _ (Demo.external Demo.frozen UTF8)
     (Demo.translator 4 false false ["test"]) [] "test" Demo.world0).1
  = Raise ZeroDivisionError
  ∧ log (@translate _ (Demo.external Demo.frozen UTF8)
           (Demo.translator 4 false false ["test"]) [] "test" Demo.world0).2
    = [LogStarting].
Proof. split; vm_compute; reflexivity. Qed.

(** * Sample runs *)

(** One checkpoint, beam 4, no flags, split [test]. *)
Example scenario_named_split :
  let r := Demo.run Demo.posix
             (Demo.kwargs ["m1"] 4 false false (Some "test") None) in
  r.1 = Ok ()
  ∧ files r.2 = {["out/run.test.beam4" := mkFile UTF8 ("test.src" +:+ nl)]}.
Proof. split; vm_compute; reflexivity. Qed.

(** One checkpoint, beam 1, both flags, an input file given on the command
    line. *)
Example scenario_new_input :
  let r := Demo.run Demo.posix
             (Demo.kwargs ["m1"] 1 true true None (Some "src:foo.txt")) in
  r.1 = Ok ()
  ∧ files r.2
    = {["out/run.beam1.nodbl.nounk" := mkFile UTF8 ("foo.txt" +:+ nl)]}.
Proof. split; vm_compute; reflexivity. Qed.

(** Two checkpoints whose target vocabularies differ in size. *)
Example scenario_mismatch :
  let r := Demo.run Demo.posix
             (Demo.kwargs ["m1"; "big2"] 4 false false (Some "test") None) in
  r.1 = Raise (AssertionError "target vocabularies differ.")
  ∧ files r.2 = ∅.
Proof. split; vm_compute; reflexivity. Qed.

(** A run whose second split is unknown stops there. *)
Example scenario_abort :
  let r := Demo.run Demo.posix
             (Demo.kwargs ["m1"] 4 false false (Some "test,dev,test") None) in
  r.1 = Raise (Foreign "unknown split")
  ∧ files r.2 = {["out/run.test.beam4" := mkFile UTF8 ("test.src" +:+ nl)]}.
Proof. split; vm_compute; reflexivity. Qed.

Example throughput_samples :
  throughput 10 4%float = Ok 2
  ∧ throughput 3 0.5%float = Ok 6
  ∧ throughput 3 (-2)%float = Ok (-2)
  ∧ throughput 0 1.5%float = Ok 0
  ∧ throughput 3 0%float = Raise ZeroDivisionError
  ∧ throughput 0 0%float = Raise ZeroDivisionError.
Proof. repeat split; vm_compute; reflexivity. Qed.

Example split_samples :
  str_split "," "" = [""]
  ∧ str_split "," "a,,b," = ["a"; ""; "b"; ""]
  ∧ str_split1 ":" "src:C:/in.txt" = ["src"; "C:/in.txt"]
  ∧ unpack2 (str_split1 ":" "src") = Raise ValueError.
Proof. repeat split; reflexivity. Qed.

(** * The further properties on concrete runs *)

Lemma X2_malformed_source_witness :
  (@init _ Demo.posix
     (Demo.kwargs ["m1"] 4 false false None (Some "src:foo.txt,bar"))
     Demo.world0).1
  = Raise ValueError.
Proof.
  refine (proj1 (@X2_malformed_source _ Demo.posix
                   (Demo.kwargs ["m1"] 4 false false None
                      (Some "src:foo.txt,bar"))
                   Demo.world0 "src:foo.txt,bar" [Demo.instance_of "m1"]
                   _ _ _ _ _ _)).
  - reflexivity.
  - vm_compute. reflexivity.
  - reflexivity.
  - reflexivity.
  - discriminate.
  - apply Exists_cons_tl, Exists_cons_hd. reflexivity.
Defined.

Lemma X3_last_pair_wins_witness :
  ∃ (i' : @Instance Demo.types) (m : gmap string Path),
    (resolve_splits None (Some "src:a.txt,ref:r.txt,src:b.txt")
       [Demo.instance_of "m1"] Demo.world0).1 = Ok (Names ["new"], [i'])
    ∧ data (opts i') !! "new_set" = Some m
    ∧ m !! "src" = Some (mkPath "b.txt")
    ∧ m !! "ref" = Some (mkPath "r.txt")
    ∧ m !! "trg" = None.
Proof.
  destruct (@X3_last_pair_wins Demo.types
              [("src", "a.txt"); ("ref", "r.txt"); ("src", "b.txt")]
              None (Demo.instance_of "m1") [] Demo.world0)
    as (i' & m & Hres & Hm & Hlast & _).
  - reflexivity.
  - discriminate.
  - repeat constructor.
  - exists i', m. split; [exact Hres|]. split; [exact Hm|].
    split; [exact (Hlast "src")|]. split; [exact (Hlast "ref")|].
    exact (Hlast "trg").
Defined.

Lemma X4_constructed_witness :
  length (instances (Demo.built Demo.posix
            (Demo.kwargs ["m1"; "m2"] 4 false false None (Some "src:x"))))
  = 2%nat
  ∧ sanity_check (instances (Demo.built Demo.posix
       (Demo.kwargs ["m1"; "m2"] 4 false false None (Some "src:x"))))
    = Ok ()
  ∧ ∃ m,
      instances (Demo.built Demo.posix
        (Demo.kwargs ["m1"; "m2"] 4 false false None (Some "src:x")))
      = [with_data (Demo.instance_of "m1")
           (<["new_set" := m]> (data (opts (Demo.instance_of "m1"))));
         Demo.instance_of "m2"].
Proof.
  destruct (@X4_constructed _ Demo.posix
              (Demo.kwargs ["m1"; "m2"] 4 false false None (Some "src:x"))
              Demo.world0
              (@init _ Demo.posix
                 (Demo.kwargs ["m1"; "m2"] 4 false false None (Some "src:x"))
                 Demo.world0).2
              (Demo.built Demo.posix
                 (Demo.kwargs ["m1"; "m2"] 4 false false None (Some "src:x"))))
    as ((loaded & Hall & _ & _ & Hif) & Hlen & _ & _ & Hsc & _).
  - vm_compute. reflexivity.
  - split; [exact Hlen|]. split; [exact Hsc|].
    simpl in Hif. destruct Hif as (i & rest & m & -> & Hinst).
    apply Forall2_cons_inv_l in Hall as (i1 & k1 & Hi1 & Hall & Heq).
    injection Heq as <- <-.
    apply Forall2_cons_inv_l in Hall as (i2 & k2 & Hi2 & Hall & ->).
    apply Forall2_nil_inv_l in Hall as ->.
    injection Hi1 as <-. injection Hi2 as <-.
    exists m. exact Hinst.
Defined.

Lemma X5_nothing_to_translate_witness :
  ∃ (t : @Translator Demo.types) (w' : World),
    @init _ Demo.posix (Demo.kwargs ["m1"] 4 false false None None)
      Demo.world0 = (Ok t, w')
    ∧ @call _ Demo.posix t w' = (Raise TypeError, w').
Proof.
  destruct (@X5_nothing_to_translate _ Demo.posix
              (Demo.kwargs ["m1"] 4 false false None None) Demo.world0
              [Demo.instance_of "m1"])
    as (t & w' & Hinit & _ & Hnone & _).
  - reflexivity.
  - vm_compute. reflexivity.
  - reflexivity.
  - reflexivity.
  - exists t, w'. split; [exact Hinit|]. apply Hnone. reflexivity.
Defined.

Lemma X6_load_failure_witness :
  (@init _ Demo.posix
     (Demo.kwargs ["m1"; "missing2"; "m3"] 4 false false (Some "test") None)
     Demo.world0).1
  = Raise (Foreign "no such checkpoint").
Proof.
  rewrite (@X6_load_failure _ Demo.posix
             (Demo.kwargs ["m1"; "missing2"; "m3"] 4 false false
                (Some "test") None)
             Demo.world0 ["m1"] ["m3"] "missing2" [Demo.instance_of "m1"]
             (Foreign "no such checkpoint")).
  - reflexivity.
  - reflexivity.
  - repeat constructor.
  - reflexivity.
Defined.

Lemma X7_call_keeps_witness :
  ticks (@call _ Demo.posix (Demo.translator 4 false false ["test"; "test"])
           Demo.world0).2 = 4%nat.
Proof.
  destruct (@X7_call_keeps _ Demo.posix
              (Demo.translator 4 false false ["test"; "test"])
              (Demo.looped Demo.posix
                 (Demo.translator 4 false false ["test"; "test"])
                 ["test"; "test"]).1
              ["test"; "test"] Demo.world0
              (@call _ Demo.posix
                 (Demo.translator 4 false false ["test"; "test"])
                 Demo.world0).2)
    as (_ & _ & Hticks).
  - reflexivity.
  - vm_compute. reflexivity.
  - exact Hticks.
Defined.

Lemma X9_truncated_file_witness :
  files (@dump _ (Demo.external Demo.ticking ASCII)
           (Demo.translator 4 false false ["test"])
           ["ok"; String "233" ""; "later"] "test" Demo.world0).2
  !! "out/run.test.beam4" = Some (mkFile ASCII ("ok" +:+ nl)).
Proof.
  change ["ok"; String "233" ""; "later"]
    with (["ok"] ++ String "233" "" :: ["later"]).
  rewrite (@X9_truncated_file _ (Demo.external Demo.ticking ASCII)
             (Demo.translator 4 false false ["test"])
             ["ok"] ["later"] (String "233" "") "test" Demo.world0).
  - reflexivity.
  - reflexivity.
  - repeat constructor.
  - reflexivity.
Defined.

Lemma X10_dump_failure_aborts_witness :
  (@call _ Demo.posix (Demo.translator_to "/proc/run" ["test"; "test"])
     Demo.world0).1
  = Raise (OSError "/proc/run.test.beam4").
Proof.
  destruct (@X10_dump_failure_aborts _ Demo.posix
              (Demo.translator_to "/proc/run" ["test"; "test"])
              (Demo.translator_to "/proc/run" ["test"; "test"])
              (Demo.translated Demo.posix
                 (Demo.translator_to "/proc/run" ["test"; "test"])
                 "test" Demo.world0).1.2
              [] ["test"] "test" Demo.world0 Demo.world0
              (Demo.translated Demo.posix
                 (Demo.translator_to "/proc/run" ["test"; "test"])
                 "test" Demo.world0).2
              (Demo.translated Demo.posix
                 (Demo.translator_to "/proc/run" ["test"; "test"])
                 "test" Demo.world0).2
              (Demo.translated Demo.posix
                 (Demo.translator_to "/proc/run" ["test"; "test"])
                 "test" Demo.world0).1.1
              (OSError "/proc/run.test.beam4")) as [Hcall _].
  - reflexivity.
  - reflexivity.
  - vm_compute. reflexivity.
  - vm_compute. reflexivity.
  - rewrite Hcall. reflexivity.
Defined.

Lemma X11_single_split_witness :
  files (@call _ Demo.posix (Demo.translator 4 false false ["test"])
           Demo.world0).2
  = {["out/run.test.beam4" := mkFile UTF8 ("test.src" +:+ nl)]}.
Proof.
  rewrite (@X11_single_split _ Demo.posix
             (Demo.translator 4 false false ["test"]) "test" Demo.world0
             (Demo.instance_of "m1")
             (Demo.with_datasets (Demo.instance_of "m1")
                {["test" := ["test.src"]]})
             ["test.src"] [["test.src"]] ["test.src"] 0).
  - reflexivity.
  - reflexivity.
  - reflexivity.
  - vm_compute. reflexivity.
  - reflexivity.
  - reflexivity.
  - reflexivity.
  - vm_compute. reflexivity.
  - reflexivity.
  - repeat constructor.
Defined.

Lemma X13_new_collides_witness :
  dump_output (Demo.translator_to "out/run.test" []) "new"
  = dump_output (Demo.translator_to "out/run" []) "test".
Proof.
  apply (@X13_new_collides Demo.types); solve [reflexivity | discriminate].
Defined.

Lemma X14_filter_choice_witness :
  filter (Demo.built Demo.posix
            (Demo.kwargs ["low1"; "low2"] 4 false false (Some "test") None))
    ["a"; "b"]
  = ["a!"; "b!"].
Proof.
  destruct (@X14_filter_choice _ Demo.posix
              (Demo.kwargs ["low1"; "low2"] 4 false false (Some "test") None)
              Demo.world0
              (@init _ Demo.posix
                 (Demo.kwargs ["low1"; "low2"] 4 false false (Some "test") None)
                 Demo.world0).2
              (Demo.built Demo.posix
                 (Demo.kwargs ["low1"; "low2"] 4 false false (Some "test")
                    None)))
    as (ef & Hall & Hif).
  - vm_compute. reflexivity.
  - assert (Hef : ef = "lower").
    { symmetry. apply (Hall (Demo.instance_of "low1")). vm_compute. left. }
    subst ef. simpl in Hif. destruct Hif as [-> _]. reflexivity.
Defined.
